(** * navigation_collision_checker: rollout safety filter for velocity commands

  A shallow embedding of [src/navigation_collision_checker_node.cpp]
  (class [NavCollisionChecker]) and the properties of its motion
  predictor ([integrateTwist]), collision check ([isInCollision]),
  rollout loop ([twistCallback]) and configuration callback
  ([dynRecParamCallback]).

  Conventions of the embedding:
  - a C++ [double] is a real number ([R]); rounding, infinities and NaN
    are not modelled, and a division is only spoken of where its divisor
    is not zero;
  - a C++ [int] is an integer ([Z]) in the 32-bit range, [size_t] is the
    64-bit unsigned type of the LP64 targets the node is built for;
  - the node object is a record, every member function takes the node
    and returns the new node; everything the node sends to the outside
    (published messages, throttled log lines, collision queries to the
    planning scene) is appended to a trace kept in the node record. *)

From Stdlib Require Import Reals Lra ZArith Lia.
From stdpp Require Import gmap strings list fin_maps.

(** ** Eigen: the geometry types the node uses *)

Module Eigen.
Local Open Scope R_scope.

Record Vector3d := mkVector3d { x : R; y : R; z : R }.

Definition Zero : Vector3d := mkVector3d 0 0 0.
Definition UnitZ : Vector3d := mkVector3d 0 0 1.

Definition vec_add (a b : Vector3d) : Vector3d :=
  mkVector3d (x a + x b) (y a + y b) (z a + z b).

(** Row-major 3x3 matrix, [mij] is the coefficient [(i,j)]. *)
Record Matrix3d := mkMatrix3d {
  m00 : R; m01 : R; m02 : R;
  m10 : R; m11 : R; m12 : R;
  m20 : R; m21 : R; m22 : R }.

Definition Identity : Matrix3d := mkMatrix3d 1 0 0  0 1 0  0 0 1.

Definition mat_vec (M : Matrix3d) (v : Vector3d) : Vector3d :=
  mkVector3d (m00 M * x v + m01 M * y v + m02 M * z v)
             (m10 M * x v + m11 M * y v + m12 M * z v)
             (m20 M * x v + m21 M * y v + m22 M * z v).

Definition mat_mul (A B : Matrix3d) : Matrix3d :=
  mkMatrix3d
    (m00 A * m00 B + m01 A * m10 B + m02 A * m20 B)
    (m00 A * m01 B + m01 A * m11 B + m02 A * m21 B)
    (m00 A * m02 B + m01 A * m12 B + m02 A * m22 B)
    (m10 A * m00 B + m11 A * m10 B + m12 A * m20 B)
    (m10 A * m01 B + m11 A * m11 B + m12 A * m21 B)
    (m10 A * m02 B + m11 A * m12 B + m12 A * m22 B)
    (m20 A * m00 B + m21 A * m10 B + m22 A * m20 B)
    (m20 A * m01 B + m21 A * m11 B + m22 A * m21 B)
    (m20 A * m02 B + m21 A * m12 B + m22 A * m22 B).

(** [Eigen::Affine3d]: the 4x4 matrix with last row [0 0 0 1], kept as
    its 3x3 linear block and its translation column. *)
Record Affine3d := mkAffine3d { linear : Matrix3d; translation : Vector3d }.

(** [a * b] on transforms: the product of the two 4x4 matrices. *)
Definition mul (a b : Affine3d) : Affine3d :=
  mkAffine3d (mat_mul (linear a) (linear b))
             (vec_add (mat_vec (linear a) (translation b)) (translation a)).

(** The point a transform sends [p] to. *)
Definition apply (a : Affine3d) (p : Vector3d) : Vector3d :=
  vec_add (mat_vec (linear a) p) (translation a).

Record AngleAxisd := mkAngleAxisd { angle : R; axis : Vector3d }.

(** [AngleAxis::toRotationMatrix] (Rodrigues' formula as Eigen writes it). *)
Definition toRotationMatrix (aa : AngleAxisd) : Matrix3d :=
  let s := sin (angle aa) in
  let c := cos (angle aa) in
  let sin_axis := mkVector3d (s * x (axis aa)) (s * y (axis aa)) (s * z (axis aa)) in
  let cos1_axis :=
    mkVector3d ((1 - c) * x (axis aa)) ((1 - c) * y (axis aa)) ((1 - c) * z (axis aa)) in
  let txy := x cos1_axis * y (axis aa) in
  let txz := x cos1_axis * z (axis aa) in
  let tyz := y cos1_axis * z (axis aa) in
  mkMatrix3d
    (x cos1_axis * x (axis aa) + c) (txy - z sin_axis)              (txz + y sin_axis)
    (txy + z sin_axis)              (y cos1_axis * y (axis aa) + c) (tyz - x sin_axis)
    (txz - y sin_axis)              (tyz + x sin_axis)              (z cos1_axis * z (axis aa) + c).

Record Translation3d := mkTranslation3d { vector : Vector3d }.

(** [Transform::translate]: apply a translation on the right of the
    transform, [translation += linear * v]. *)
Definition translate (a : Affine3d) (v : Vector3d) : Affine3d :=
  mkAffine3d (linear a) (vec_add (translation a) (mat_vec (linear a) v)).

(** [rotation * translation] ([RotationBase::operator*] with a
    [Translation]): the transform of the rotation alone, then
    [translate]. *)
Definition rotation_mul_translation (r : AngleAxisd) (t : Translation3d) : Affine3d :=
  translate (mkAffine3d (toRotationMatrix r) Zero) (vector t).

Record Quaterniond := mkQuaterniond { qx : R; qy : R; qz : R; qw : R }.

Definition squaredNorm (q : Quaterniond) : R :=
  qx q * qx q + qy q * qy q + qz q * qz q + qw q * qw q.

(** [Quaternion::toRotationMatrix]. *)
Definition quat_toRotationMatrix (q : Quaterniond) : Matrix3d :=
  let tx := 2 * qx q in
  let ty := 2 * qy q in
  let tz := 2 * qz q in
  let twx := tx * qw q in
  let twy := ty * qw q in
  let twz := tz * qw q in
  let txx := tx * qx q in
  let txy := ty * qx q in
  let txz := tz * qx q in
  let tyy := ty * qy q in
  let tyz := tz * qy q in
  let tzz := tz * qz q in
  mkMatrix3d
    (1 - (tyy + tzz)) (txy - twz)       (txz + twy)
    (txy + twz)       (1 - (txx + tzz)) (tyz - twx)
    (txz - twy)       (tyz + twx)       (1 - (txx + tyy)).
End Eigen.

(** ** ROS messages *)

Module geometry_msgs.
Record Vector3 := mkVector3 { x : R; y : R; z : R }.
Record Twist := mkTwist { linear : Vector3; angular : Vector3 }.
Record Point := mkPoint { px : R; py : R; pz : R }.
Record Quaternion := mkQuaternion { ox : R; oy : R; oz : R; ow : R }.
Record Pose := mkPose { position : Point; orientation : Quaternion }.
End geometry_msgs.

Module sensor_msgs.
Record JointState := mkJointState { name : list string; position : list R }.
End sensor_msgs.

(** ** The motion predictor *)

Section MotionPredictor.
Local Open Scope R_scope.
Import geometry_msgs.

(** The value of the local [int_vec] ("x, y and theta") of
    [integrateTwist] when the function reaches its [return]. *)
Definition int_vec (msg : Twist) (step_time : R) : Eigen.Vector3d :=
  if Rlt_dec (Rabs (z (angular msg))) 0.0001 then
    Eigen.mkVector3d (x (linear msg) * step_time) 0 0
  else
    let dist_change := x (linear msg) * step_time in
    let angle_change := z (angular msg) * step_time in
    let arc_radius := dist_change / angle_change in
    Eigen.mkVector3d (sin angle_change * arc_radius)
                     (arc_radius - cos angle_change * arc_radius)
                     angle_change.

Definition integrateTwist (msg : Twist) (step_time : R) : Eigen.Affine3d :=
  let v := int_vec msg step_time in
  Eigen.rotation_mul_translation
    (Eigen.mkAngleAxisd (Eigen.z v) Eigen.UnitZ)
    (Eigen.mkTranslation3d (Eigen.mkVector3d (Eigen.x v) (Eigen.y v) 0)).
End MotionPredictor.

(** ** MoveIt: robot state, collision request and result, planning scene *)

Module moveit.

(** A [RobotState] is the value of every variable of the robot model, by
    variable name. *)
Abbreviation RobotState := (gmap string R).

(** [RobotState::setVariablePositions(names, positions)]: the named
    variables are overwritten in message order, the others are kept. *)
Definition setVariablePositions (names : list string) (positions : list R)
    (state : RobotState) : RobotState :=
  foldl (fun st nv => <[nv.1 := nv.2]> st) state (zip names positions).

(** [moveit::core::jointStateToRobotState]: a message whose [name] and
    [position] arrays differ in length is refused and the state is left
    as it is. *)
Definition jointStateToRobotState (joint_state : sensor_msgs.JointState)
    (state : RobotState) : RobotState :=
  if decide (length (sensor_msgs.name joint_state)
             = length (sensor_msgs.position joint_state))
  then setVariablePositions (sensor_msgs.name joint_state)
                            (sensor_msgs.position joint_state) state
  else state.

Record CollisionRequest := mkCollisionRequest {
  req_contacts : bool;
  req_max_contacts : Z;
  req_distance : bool }.

(** The result record, with the two members the node reads: the
    collision flag and the contact map (one entry per pair of bodies in
    contact). *)
Record CollisionResult := mkCollisionResult {
  collision : bool;
  contacts : list (string * string) }.

(** [CollisionResult()]: a freshly constructed result says "no collision". *)
Definition CollisionResult_new : CollisionResult := mkCollisionResult false [].

(** What happened inside the planning scene when it was asked and the
    call returned: either the query ran to its end and filled the
    caller's result record, or it could not be completed and returned
    without writing anything.  [checkCollision] returns [void]: the
    caller's result record is all the node gets to see.  A call that
    does not return but throws is not represented. *)
Inductive QueryOutcome :=
| Answered (res : CollisionResult)
| NotCompleted.

(** The planning scene is the environment model: the octomap it holds and
    the allowed-collision matrix decide the outcome of a query for a
    robot state. *)
Record PlanningScene := mkPlanningScene {
  query : CollisionRequest → RobotState → QueryOutcome }.

(** [PlanningScene::checkCollision(req, res, state, acm)] as the caller
    sees it: [res] afterwards. *)
Definition checkCollision (scene : PlanningScene) (req : CollisionRequest)
    (res : CollisionResult) (state : RobotState) : CollisionResult :=
  match query scene req state with
  | Answered r => r
  | NotCompleted => res
  end.

End moveit.

(** ** Integer conversions of the target *)

Definition size_t_bits : Z := 64.
Definition INT_MIN : Z := - 2 ^ 31.
Definition INT_MAX : Z := 2 ^ 31 - 1.

(** The values an [int] can hold. *)
Definition is_int (n : Z) : Prop := (INT_MIN ≤ n ≤ INT_MAX)%Z.

(** Conversion of an [int] to [size_t], as done by the usual arithmetic
    conversions when the two are compared: reduction modulo [2^64]. *)
Definition size_t_of_int (n : Z) : Z := (n mod 2 ^ size_t_bits)%Z.

(** Conversion of a [size_t] to [int] ([marker.id = count],
    [(int)contacts.size()]): the low 32 bits, read as two's complement. *)
Definition int_of_size_t (n : Z) : Z :=
  ((n + 2 ^ 31) mod 2 ^ 32 - 2 ^ 31)%Z.

(** ** Messages the node publishes, and its trace *)

Module visualization_msgs.
Inductive MarkerType := ARROW.
Inductive MarkerAction := ADD.
Record ColorRGBA := mkColorRGBA { r : R; g : R; b : R; a : R }.
Record Marker := mkMarker {
  frame_id : string;
  ns : string;
  id : Z;
  type : MarkerType;
  action : MarkerAction;
  pose : geometry_msgs.Pose;
  scale : geometry_msgs.Vector3;
  color : ColorRGBA }.
End visualization_msgs.

Record NavCollisionCheckerConfig := mkConfig {
  roll_out_step_time : R;
  roll_out_steps : Z;
  pass_through : bool }.

(** Everything the node does that the outside can observe, in the order
    it happens. *)
Inductive Event :=
| safe_twist_pub (twist : geometry_msgs.Twist)
| marker_pub (markers : list visualization_msgs.Marker)
| collision_state_pub (state : moveit.RobotState)
| scene_checkCollision (req : moveit.CollisionRequest) (state : moveit.RobotState)
| ROS_WARN_THROTTLE (period : R) (text : string)
| ROS_INFO_THROTTLE (period : R) (text : string) (arg : Z).

(** ** The node *)

Record NavCollisionChecker := mkNode {
  robot_state_ : moveit.RobotState;
  planning_scene_ : moveit.PlanningScene;
  (** [None] is the null pointer: no pose message was ever received. *)
  robot_pose_ptr_ : option geometry_msgs.Pose;
  virtual_link_joint_states_ : sensor_msgs.JointState;
  marker_array_ : list visualization_msgs.Marker;
  p_roll_out_step_time_ : R;
  p_roll_out_steps_ : Z;
  p_pass_through_ : bool;
  (** What [collision_state_pub_.getNumSubscribers()] answers. *)
  collision_state_subscribers : nat;
  trace : list Event }.

Definition set_robot_state_ (v : moveit.RobotState) (s : NavCollisionChecker) :=
  mkNode v (planning_scene_ s) (robot_pose_ptr_ s) (virtual_link_joint_states_ s)
         (marker_array_ s) (p_roll_out_step_time_ s) (p_roll_out_steps_ s)
         (p_pass_through_ s) (collision_state_subscribers s) (trace s).

Definition set_planning_scene_ (v : moveit.PlanningScene) (s : NavCollisionChecker) :=
  mkNode (robot_state_ s) v (robot_pose_ptr_ s) (virtual_link_joint_states_ s)
         (marker_array_ s) (p_roll_out_step_time_ s) (p_roll_out_steps_ s)
         (p_pass_through_ s) (collision_state_subscribers s) (trace s).

Definition set_robot_pose_ptr_ (v : option geometry_msgs.Pose) (s : NavCollisionChecker) :=
  mkNode (robot_state_ s) (planning_scene_ s) v (virtual_link_joint_states_ s)
         (marker_array_ s) (p_roll_out_step_time_ s) (p_roll_out_steps_ s)
         (p_pass_through_ s) (collision_state_subscribers s) (trace s).

Definition set_virtual_link_joint_states_ (v : sensor_msgs.JointState)
    (s : NavCollisionChecker) :=
  mkNode (robot_state_ s) (planning_scene_ s) (robot_pose_ptr_ s) v
         (marker_array_ s) (p_roll_out_step_time_ s) (p_roll_out_steps_ s)
         (p_pass_through_ s) (collision_state_subscribers s) (trace s).

Definition set_marker_array_ (v : list visualization_msgs.Marker)
    (s : NavCollisionChecker) :=
  mkNode (robot_state_ s) (planning_scene_ s) (robot_pose_ptr_ s)
         (virtual_link_joint_states_ s) v (p_roll_out_step_time_ s)
         (p_roll_out_steps_ s) (p_pass_through_ s) (collision_state_subscribers s)
         (trace s).

Definition set_params (step_time : R) (steps : Z) (pass : bool)
    (s : NavCollisionChecker) :=
  mkNode (robot_state_ s) (planning_scene_ s) (robot_pose_ptr_ s)
         (virtual_link_joint_states_ s) (marker_array_ s) step_time steps pass
         (collision_state_subscribers s) (trace s).

(** One more observable action: the event goes to the end of the trace. *)
Definition emit (e : Event) (s : NavCollisionChecker) :=
  mkNode (robot_state_ s) (planning_scene_ s) (robot_pose_ptr_ s)
         (virtual_link_joint_states_ s) (marker_array_ s) (p_roll_out_step_time_ s)
         (p_roll_out_steps_ s) (p_pass_through_ s) (collision_state_subscribers s)
         (trace s ++ [e]).

(** The names the constructor pushes into [virtual_link_joint_states_.name]. *)
Definition virtual_link_names : list string :=
  [ "world_virtual_joint/trans_x"; "world_virtual_joint/trans_y";
    "world_virtual_joint/trans_z"; "world_virtual_joint/rot_x";
    "world_virtual_joint/rot_y"; "world_virtual_joint/rot_z";
    "world_virtual_joint/rot_w" ].

(** [tf::poseMsgToEigen]: translation by the position times the rotation
    of the orientation quaternion. *)
Definition poseMsgToEigen (m : geometry_msgs.Pose) : Eigen.Affine3d :=
  let p := geometry_msgs.position m in
  let o := geometry_msgs.orientation m in
  Eigen.mkAffine3d
    (Eigen.quat_toRotationMatrix
       (Eigen.mkQuaterniond (geometry_msgs.ox o) (geometry_msgs.oy o)
                            (geometry_msgs.oz o) (geometry_msgs.ow o)))
    (Eigen.mkVector3d (geometry_msgs.px p) (geometry_msgs.py p) (geometry_msgs.pz p)).

(** The six assignments of [twistCallback] that stop the robot. *)
Definition stop (twist_out : geometry_msgs.Twist) : geometry_msgs.Twist :=
  let lin := geometry_msgs.linear twist_out in
  let lin := geometry_msgs.mkVector3 0 (geometry_msgs.y lin) (geometry_msgs.z lin) in
  let lin := geometry_msgs.mkVector3 (geometry_msgs.x lin) 0 (geometry_msgs.z lin) in
  let lin := geometry_msgs.mkVector3 (geometry_msgs.x lin) (geometry_msgs.y lin) 0 in
  let ang := geometry_msgs.angular twist_out in
  let ang := geometry_msgs.mkVector3 0 (geometry_msgs.y ang) (geometry_msgs.z ang) in
  let ang := geometry_msgs.mkVector3 (geometry_msgs.x ang) 0 (geometry_msgs.z ang) in
  let ang := geometry_msgs.mkVector3 (geometry_msgs.x ang) (geometry_msgs.y ang) 0 in
  geometry_msgs.mkTwist lin ang.

Definition pose_warning : string :=
  "Cannot get robot pose. Forwarding velocity command without safety check! This message is throttled.".

Definition collisions_info : string :=
  "Detected %d collisions. This message is throttled.".

Section Node.

(** Library code the node calls and this file does not open up:
    [Eigen::Quaterniond quat(pose.rotation())], the quaternion of the
    rotation part of a transform; [tf::poseEigenToMsg]; and what
    [PlanningScene::processOctomapMsg] does to the scene. *)
Variable rotation_quaternion : Eigen.Affine3d → Eigen.Quaterniond.
Variable poseEigenToMsg : Eigen.Affine3d → geometry_msgs.Pose.
Variable Octomap : Type.
Variable processOctomapMsg : Octomap → moveit.PlanningScene → moveit.PlanningScene.

Definition octomapCallback (msg : Octomap) (s : NavCollisionChecker) :=
  set_planning_scene_ (processOctomapMsg msg (planning_scene_ s)) s.

Definition robotPoseCallback (msg : geometry_msgs.Pose) (s : NavCollisionChecker) :=
  set_robot_pose_ptr_ (Some msg) s.

Definition jointStatesCallback (msg : sensor_msgs.JointState) (s : NavCollisionChecker) :=
  set_robot_state_ (moveit.jointStateToRobotState msg (robot_state_ s)) s.

Definition dynRecParamCallback (config : NavCollisionCheckerConfig)
    (s : NavCollisionChecker) :=
  set_params (roll_out_step_time config) (roll_out_steps config) (pass_through config) s.

(** The local [marker] of [addMarker] once it is filled in. *)
Definition rollout_marker (pose : Eigen.Affine3d) (count : nat)
    : visualization_msgs.Marker :=
  visualization_msgs.mkMarker
    "world" "nav_coll_check" (int_of_size_t (Z.of_nat count))
    visualization_msgs.ARROW visualization_msgs.ADD
    (poseEigenToMsg pose)
    (geometry_msgs.mkVector3 0.1 0.025 0.025)
    (visualization_msgs.mkColorRGBA 0 0 1 1).

Definition addMarker (pose : Eigen.Affine3d) (count : nat) (s : NavCollisionChecker) :=
  set_marker_array_ (marker_array_ s ++ [rollout_marker pose count]) s.

(** The request [isInCollision] builds for every query. *)
Definition collision_request : moveit.CollisionRequest :=
  moveit.mkCollisionRequest true 100 true.

Definition isInCollision (pose : Eigen.Affine3d) (s : NavCollisionChecker)
    : bool * NavCollisionChecker :=
  let vl := virtual_link_joint_states_ s in
  let position := sensor_msgs.position vl in
  let position := <[0%nat := Eigen.x (Eigen.translation pose)]> position in
  let position := <[1%nat := Eigen.y (Eigen.translation pose)]> position in
  let position := <[2%nat := Eigen.z (Eigen.translation pose)]> position in
  let quat := rotation_quaternion pose in
  let position := <[3%nat := Eigen.qx quat]> position in
  let position := <[4%nat := Eigen.qy quat]> position in
  let position := <[5%nat := Eigen.qz quat]> position in
  let position := <[6%nat := Eigen.qw quat]> position in
  let vl := sensor_msgs.mkJointState (sensor_msgs.name vl) position in
  let s := set_virtual_link_joint_states_ vl s in
  let s := set_robot_state_ (moveit.jointStateToRobotState vl (robot_state_ s)) s in
  let s := emit (scene_checkCollision collision_request (robot_state_ s)) s in
  let collision_result :=
    moveit.checkCollision (planning_scene_ s) collision_request
                          moveit.CollisionResult_new (robot_state_ s) in
  if moveit.collision collision_result then
    let s :=
      if decide (0 < collision_state_subscribers s)%nat
      then emit (collision_state_pub (robot_state_ s)) s
      else s in
    let s :=
      emit (ROS_INFO_THROTTLE 1 collisions_info
              (int_of_size_t (Z.of_nat (length (moveit.contacts collision_result))))) s in
    (true, s)
  else (false, s).

(** The [for] loop of [twistCallback]: [todo] iterations are left, [i] is
    the loop counter.  The boolean tells whether the callback returned
    from inside the loop. *)
Fixpoint roll_out (todo : nat) (i : nat) (msg : geometry_msgs.Twist)
    (pose_change test_pose : Eigen.Affine3d) (s : NavCollisionChecker)
    : bool * NavCollisionChecker :=
  match todo with
  | O => (false, s)
  | S todo' =>
    let test_pose := Eigen.mul test_pose pose_change in
    let s := addMarker test_pose i s in
    let (in_collision, s) := isInCollision test_pose s in
    if in_collision then
      let twist_out := stop msg in
      let s := emit (safe_twist_pub twist_out) s in
      let s := emit (marker_pub (marker_array_ s)) s in
      (true, s)
    else roll_out todo' (S i) msg pose_change test_pose s
  end.

(** Number of iterations of the loop [for (size_t i = 0; i <
    p_roll_out_steps_; ++i)] when nothing returns early: the [int] bound
    is converted to [size_t] for the comparison. *)
Definition loop_bound (s : NavCollisionChecker) : nat :=
  Z.to_nat (size_t_of_int (p_roll_out_steps_ s)).

Definition twistCallback (msg : geometry_msgs.Twist) (s : NavCollisionChecker)
    : NavCollisionChecker :=
  let twist_out := msg in
  if p_pass_through_ s then emit (safe_twist_pub twist_out) s
  else
    match robot_pose_ptr_ s with
    | None =>
      let s := emit (ROS_WARN_THROTTLE 3 pose_warning) s in
      emit (safe_twist_pub twist_out) s
    | Some robot_pose =>
      let step_time := p_roll_out_step_time_ s in
      let test_pose := poseMsgToEigen robot_pose in
      let pose_change := integrateTwist msg step_time in
      let bound := loop_bound s in
      let s := set_marker_array_ [] s in
      let (returned, s) := roll_out bound 0 msg pose_change test_pose s in
      if returned then s
      else
        let s := emit (marker_pub (marker_array_ s)) s in
        emit (safe_twist_pub twist_out) s
    end.

End Node.

(** ** The constructor and the states the node can be in *)

(** The constructor, for a robot model that loaded: [setCallback] calls
    [dynRecParamCallback] at once with the configuration of the parameter
    server, the seven virtual-link names are pushed and [position] is
    resized to seven zeros.  The robot state and the planning scene are
    built from the robot model, which is not part of this file: they are
    arguments. *)
Definition NavCollisionChecker_new (config : NavCollisionCheckerConfig)
    (state : moveit.RobotState) (scene : moveit.PlanningScene) (subscribers : nat)
    : NavCollisionChecker :=
  dynRecParamCallback config
    (mkNode state scene None
            (sensor_msgs.mkJointState virtual_link_names (replicate 7 0%R))
            [] 0%R 0%Z false subscribers []).

(** A subscriber of the collision-state topic comes or goes. *)
Definition subscribers_change (n : nat) (s : NavCollisionChecker) :=
  mkNode (robot_state_ s) (planning_scene_ s) (robot_pose_ptr_ s)
         (virtual_link_joint_states_ s) (marker_array_ s) (p_roll_out_step_time_ s)
         (p_roll_out_steps_ s) (p_pass_through_ s) n (trace s).

Section Reachable.

Variable rotation_quaternion : Eigen.Affine3d → Eigen.Quaterniond.
Variable poseEigenToMsg : Eigen.Affine3d → geometry_msgs.Pose.
Variable Octomap : Type.
Variable processOctomapMsg : Octomap → moveit.PlanningScene → moveit.PlanningScene.

(** The node after construction and any sequence of callbacks; the
    configuration server only hands out [int] step counts. *)
Inductive reachable : NavCollisionChecker → Prop :=
| reach_new config state scene subscribers :
    is_int (roll_out_steps config) →
    reachable (NavCollisionChecker_new config state scene subscribers)
| reach_octomap msg s :
    reachable s → reachable (octomapCallback Octomap processOctomapMsg msg s)
| reach_robot_pose msg s :
    reachable s → reachable (robotPoseCallback msg s)
| reach_joint_states msg s :
    reachable s → reachable (jointStatesCallback msg s)
| reach_twist msg s :
    reachable s →
    reachable (twistCallback rotation_quaternion poseEigenToMsg msg s)
| reach_dyn_rec config s :
    is_int (roll_out_steps config) →
    reachable s → reachable (dynRecParamCallback config s)
| reach_subscribers n s :
    reachable s → reachable (subscribers_change n s).

End Reachable.

(** ** Vocabulary of the properties *)

(** The virtual-link message is as the constructor left it: the seven
    names, and seven positions. *)
Definition virtual_link_ok (s : NavCollisionChecker) : Prop :=
  sensor_msgs.name (virtual_link_joint_states_ s) = virtual_link_names
  ∧ length (sensor_msgs.position (virtual_link_joint_states_ s)) = 7%nat.

(** The seven values of a pose with orientation quaternion [q], in the
    order of [virtual_link_names]. *)
Definition virtual_link_values (pose : Eigen.Affine3d) (q : Eigen.Quaterniond) : list R :=
  [ Eigen.x (Eigen.translation pose); Eigen.y (Eigen.translation pose);
    Eigen.z (Eigen.translation pose);
    Eigen.qx q; Eigen.qy q; Eigen.qz q; Eigen.qw q ].

(** The robot state with the virtual link moved to a pose. *)
Definition candidate_state (pose : Eigen.Affine3d) (q : Eigen.Quaterniond)
    (state : moveit.RobotState) : moveit.RobotState :=
  moveit.setVariablePositions virtual_link_names (virtual_link_values pose q) state.

(** The test pose after [j] passes through the loop body. *)
Definition predicted_pose (pose_change test_pose : Eigen.Affine3d) (j : nat)
    : Eigen.Affine3d :=
  Nat.iter j (fun p => Eigen.mul p pose_change) test_pose.

(** The [j]-th pose (from 1) of the rollout of [msg] by node [s] from
    the robot pose [robot_pose]. *)
Definition rollout_pose (s : NavCollisionChecker) (msg : geometry_msgs.Twist)
    (robot_pose : geometry_msgs.Pose) (j : nat) : Eigen.Affine3d :=
  predicted_pose (integrateTwist msg (p_roll_out_step_time_ s))
                 (poseMsgToEigen robot_pose) j.

(** The commands sent to the actuation layer in a trace. *)
Definition published_twists (tr : list Event) : list geometry_msgs.Twist :=
  omap (fun e => match e with safe_twist_pub t => Some t | _ => None end) tr.

(** The robot states put to the planning scene in a trace, one per
    collision query. *)
Definition collision_queries (tr : list Event) : list moveit.RobotState :=
  omap (fun e => match e with scene_checkCollision _ st => Some st | _ => None end) tr.

(** The throttled warnings of a trace. *)
Definition warnings (tr : list Event) : list (R * string) :=
  omap (fun e => match e with ROS_WARN_THROTTLE p t => Some (p, t) | _ => None end) tr.

(** The marker arrays published in a trace. *)
Definition published_markers (tr : list Event) : list (list visualization_msgs.Marker) :=
  omap (fun e => match e with marker_pub m => Some m | _ => None end) tr.

(** The colliding robot states published for display in a trace. *)
Definition collision_states (tr : list Event) : list moveit.RobotState :=
  omap (fun e => match e with collision_state_pub st => Some st | _ => None end) tr.

Definition zero_twist : geometry_msgs.Twist :=
  geometry_msgs.mkTwist (geometry_msgs.mkVector3 0 0 0) (geometry_msgs.mkVector3 0 0 0).

(** Rotation by [theta] about the vertical axis. *)
Definition Rz (theta : R) : Eigen.Matrix3d :=
  Eigen.mkMatrix3d (cos theta) (- sin theta) 0
                   (sin theta) (cos theta) 0
                   0 0 1.

(** The planar displacement of an arc of [angle] radians and radius
    [radius], seen from the pose at its start. *)
Definition arc_displacement (angle radius : R) : Eigen.Vector3d :=
  Eigen.mkVector3d (sin angle * radius) (radius - cos angle * radius) 0.

(** A planning scene whose queries are never completed. *)
Definition failing_scene : moveit.PlanningScene :=
  moveit.mkPlanningScene (fun _ _ => moveit.NotCompleted).

(** A planning scene in which nothing collides. *)
Definition free_scene : moveit.PlanningScene :=
  moveit.mkPlanningScene (fun _ _ => moveit.Answered moveit.CollisionResult_new).

(** What the result record holds after the query for the robot at a pose
    with orientation quaternion [q], in the scene and with the joint
    values of node [s]. *)
Definition check_result (pose : Eigen.Affine3d) (q : Eigen.Quaterniond)
    (s : NavCollisionChecker) : moveit.CollisionResult :=
  moveit.checkCollision (planning_scene_ s) collision_request moveit.CollisionResult_new
                        (candidate_state pose q (robot_state_ s)).

(** The node once the query for a pose has been put to the scene. *)
Definition checked_node (pose : Eigen.Affine3d) (q : Eigen.Quaterniond)
    (s : NavCollisionChecker) : NavCollisionChecker :=
  let state := candidate_state pose q (robot_state_ s) in
  emit (scene_checkCollision collision_request state)
    (set_robot_state_ state
       (set_virtual_link_joint_states_
          (sensor_msgs.mkJointState virtual_link_names (virtual_link_values pose q)) s)).

(** The node once a collision has been reported for a pose. *)
Definition collided_node (pose : Eigen.Affine3d) (q : Eigen.Quaterniond)
    (s : NavCollisionChecker) : NavCollisionChecker :=
  let s1 := checked_node pose q s in
  let s2 :=
    if decide (0 < collision_state_subscribers s1)%nat
    then emit (collision_state_pub (robot_state_ s1)) s1 else s1 in
  emit (ROS_INFO_THROTTLE 1 collisions_info
          (int_of_size_t (Z.of_nat (length (moveit.contacts (check_result pose q s)))))) s2.

(** What a reported collision adds to the trace after its query: the
    colliding robot state when somebody listens, and the throttled count
    of contacts. *)
Definition collision_report (pose : Eigen.Affine3d) (q : Eigen.Quaterniond)
    (s : NavCollisionChecker) : list Event :=
  (if decide (0 < collision_state_subscribers s)%nat
   then [collision_state_pub (candidate_state pose q (robot_state_ s))] else [])
  ++ [ROS_INFO_THROTTLE 1 collisions_info
        (int_of_size_t (Z.of_nat (length (moveit.contacts (check_result pose q s)))))].

(** The query the rollout of node [s] puts to the scene for a pose. *)
Definition pose_query (q : Eigen.Affine3d → Eigen.Quaterniond) (s : NavCollisionChecker)
    (pose : Eigen.Affine3d) : Event :=
  scene_checkCollision collision_request (candidate_state pose (q pose) (robot_state_ s)).

(** ** Concrete set-ups used to exercise the properties *)

(** The orientation quaternion of a transform that does not turn
    anything. *)
Definition upright_quaternion (pose : Eigen.Affine3d) : Eigen.Quaterniond :=
  Eigen.mkQuaterniond 0 0 0 1.

(** The pose message of a transform that does not turn anything. *)
Definition upright_pose_msg (pose : Eigen.Affine3d) : geometry_msgs.Pose :=
  geometry_msgs.mkPose
    (geometry_msgs.mkPoint (Eigen.x (Eigen.translation pose))
                           (Eigen.y (Eigen.translation pose))
                           (Eigen.z (Eigen.translation pose)))
    (geometry_msgs.mkQuaternion 0 0 0 1).

(** The robot at the origin of the world, not turned. *)
Definition origin_pose : geometry_msgs.Pose :=
  geometry_msgs.mkPose (geometry_msgs.mkPoint 0 0 0) (geometry_msgs.mkQuaternion 0 0 0 1).

(** One metre per second straight ahead. *)
Definition forward_cmd : geometry_msgs.Twist :=
  geometry_msgs.mkTwist (geometry_msgs.mkVector3 1 0 0) (geometry_msgs.mkVector3 0 0 0).

(** A node just constructed; with [located], one that has also received
    the pose [origin_pose]. *)
Definition fresh_node (config : NavCollisionCheckerConfig) (scene : moveit.PlanningScene)
    : NavCollisionChecker :=
  NavCollisionChecker_new config ∅ scene 0.

Definition located_node (config : NavCollisionCheckerConfig)
    (scene : moveit.PlanningScene) : NavCollisionChecker :=
  robotPoseCallback origin_pose (fresh_node config scene).

(** A planning scene in which the robot collides wherever it is. *)
Definition blocked_scene : moveit.PlanningScene :=
  moveit.mkPlanningScene
    (fun _ _ => moveit.Answered (moveit.mkCollisionResult true [("base_link", "octomap")])).

(** A planning scene with a wall across the forward axis: the robot
    collides once its base is at [limit] or beyond. *)
Definition wall_scene (limit : R) : moveit.PlanningScene :=
  moveit.mkPlanningScene
    (fun _ state =>
       match state !! "world_virtual_joint/trans_x" with
       | Some x =>
         if Rle_dec limit x
         then moveit.Answered (moveit.mkCollisionResult true [("base_link", "octomap")])
         else moveit.Answered moveit.CollisionResult_new
       | None => moveit.Answered moveit.CollisionResult_new
       end).

(** Two nodes that differ at most in what a rollout overwrites on its
    way: the virtual-link message and variables, the marker array and
    the trace. *)
Definition same_setup (s s' : NavCollisionChecker) : Prop :=
  planning_scene_ s' = planning_scene_ s
  ∧ robot_pose_ptr_ s' = robot_pose_ptr_ s
  ∧ p_roll_out_step_time_ s' = p_roll_out_step_time_ s
  ∧ p_roll_out_steps_ s' = p_roll_out_steps_ s
  ∧ p_pass_through_ s' = p_pass_through_ s
  ∧ collision_state_subscribers s' = collision_state_subscribers s
  ∧ ∀ pose q, candidate_state pose q (robot_state_ s')
              = candidate_state pose q (robot_state_ s).

(** ** The motion predictor: what [integrateTwist] returns *)

Section MotionPredictorFacts.
Local Open Scope R_scope.
Import geometry_msgs.

Lemma toRotationMatrix_UnitZ (theta : R) :
  Eigen.toRotationMatrix (Eigen.mkAngleAxisd theta Eigen.UnitZ) = Rz theta.
Proof.
  unfold Eigen.toRotationMatrix, Rz; cbn.
  f_equal; ring.
Qed.

Lemma Rz_0 : Rz 0 = Eigen.Identity.
Proof. unfold Rz, Eigen.Identity. rewrite sin_0, cos_0. f_equal; ring. Qed.

Lemma vec_add_Zero_l (v : Eigen.Vector3d) : Eigen.vec_add Eigen.Zero v = v.
Proof. destruct v; unfold Eigen.vec_add; cbn. f_equal; ring. Qed.

Lemma mat_vec_Identity (v : Eigen.Vector3d) : Eigen.mat_vec Eigen.Identity v = v.
Proof. destruct v; unfold Eigen.mat_vec; cbn. f_equal; ring. Qed.

(** A rotation about the vertical axis times a translation: the rotation
    is kept, the translation vector is turned by it. *)
Lemma rotation_mul_translation_UnitZ (theta : R) (v : Eigen.Vector3d) :
  Eigen.rotation_mul_translation (Eigen.mkAngleAxisd theta Eigen.UnitZ)
                                 (Eigen.mkTranslation3d v)
  = Eigen.mkAffine3d (Rz theta) (Eigen.mat_vec (Rz theta) v).
Proof.
  unfold Eigen.rotation_mul_translation, Eigen.translate; cbn [Eigen.linear Eigen.translation Eigen.vector].
  now rewrite toRotationMatrix_UnitZ, vec_add_Zero_l.
Qed.

Lemma int_vec_straight (msg : Twist) (step_time : R) :
  Rabs (z (angular msg)) < 0.0001 →
  int_vec msg step_time = Eigen.mkVector3d (x (linear msg) * step_time) 0 0.
Proof. intros H. unfold int_vec. destruct (Rlt_dec _ _); [reflexivity | contradiction]. Qed.

Lemma int_vec_arc (msg : Twist) (step_time : R) :
  ¬ Rabs (z (angular msg)) < 0.0001 →
  int_vec msg step_time =
    Eigen.mkVector3d
      (sin (z (angular msg) * step_time)
       * (x (linear msg) * step_time / (z (angular msg) * step_time)))
      (x (linear msg) * step_time / (z (angular msg) * step_time)
       - cos (z (angular msg) * step_time)
         * (x (linear msg) * step_time / (z (angular msg) * step_time)))
      (z (angular msg) * step_time).
Proof. intros H. unfold int_vec. destruct (Rlt_dec _ _); [contradiction | reflexivity]. Qed.

(** The translation column of the transform returned for an arc is the
    arc displacement turned by the heading change. *)
Lemma integrateTwist_arc_translation (msg : Twist) (step_time : R) :
  ¬ Rabs (z (angular msg)) < 0.0001 →
  let angle := z (angular msg) * step_time in
  let radius := x (linear msg) * step_time / angle in
  Eigen.translation (integrateTwist msg step_time)
  = Eigen.mat_vec (Rz angle) (arc_displacement angle radius).
Proof.
  intros H angle radius. unfold integrateTwist.
  rewrite rotation_mul_translation_UnitZ, (int_vec_arc _ _ H).
  reflexivity.
Qed.

Lemma sin_1_pos : 0 < sin 1.
Proof.
  apply sin_gt_0; [lra |].
  pose proof PI2_1. lra.
Qed.

Lemma cos_1_lt_1 : cos 1 < 1.
Proof.
  pose proof sin_1_pos as Hs. pose proof (sin2_cos2 1) as H. unfold Rsqr in H.
  pose proof (COS_bound 1) as [_ Hc].
  destruct Hc as [Hc | Hc]; [exact Hc |].
  rewrite Hc in H. nra.
Qed.

End MotionPredictorFacts.

Lemma cos_1_pos : (0 < cos 1)%R.
Proof.
  apply cos_gt_0; pose proof PI2_1; lra.
Qed.

(** C5 (the code departs from it in the arc branch).  The command
    [linear.x = 1], [angular.z = 1] with a step of one second is above
    the angular epsilon: [distance = 1], [angle = 1], [radius = 1].  The
    [x], [y] and [theta] that [integrateTwist] computes are the planar
    displacement [(sin angle * radius, radius - cos angle * radius)] and
    the heading change [angle], and the transform it returns turns by
    [angle]; but the displacement of the transform it returns is that
    planar displacement turned by [angle], and neither of its two
    coordinates is the coordinate of the planar displacement. *)
Theorem integrateTwist_returns_turned_displacement :
  let msg := geometry_msgs.mkTwist (geometry_msgs.mkVector3 1 0 0)
                                   (geometry_msgs.mkVector3 0 0 1) in
  let distance := (1 * 1)%R in
  let angle := (1 * 1)%R in
  let radius := (distance / angle)%R in
  let returned := integrateTwist msg 1 in
  ¬ (Rabs (geometry_msgs.z (geometry_msgs.angular msg)) < 0.0001)%R
  ∧ int_vec msg 1
    = Eigen.mkVector3d (sin angle * radius) (radius - cos angle * radius) angle
  ∧ Eigen.linear returned = Rz angle
  ∧ Eigen.x (Eigen.translation returned)
    = (cos angle * (sin angle * radius)
       + - sin angle * (radius - cos angle * radius) + 0 * 0)%R
  ∧ Eigen.y (Eigen.translation returned)
    = (sin angle * (sin angle * radius)
       + cos angle * (radius - cos angle * radius) + 0 * 0)%R
  ∧ Eigen.x (Eigen.translation returned) ≠ (sin angle * radius)%R
  ∧ Eigen.y (Eigen.translation returned) ≠ (radius - cos angle * radius)%R.
Proof.
  intros msg distance angle radius returned.
  assert (Hbig : ¬ (Rabs (geometry_msgs.z (geometry_msgs.angular msg)) < 0.0001)%R).
  { cbn. rewrite Rabs_R1. lra. }
  assert (Hvec : int_vec msg 1
                 = Eigen.mkVector3d (sin angle * radius) (radius - cos angle * radius)
                                    angle).
  { now rewrite (int_vec_arc _ _ Hbig). }
  assert (Hret : returned
                 = Eigen.mkAffine3d (Rz angle)
                     (Eigen.mat_vec (Rz angle) (arc_displacement angle radius))).
  { subst returned. unfold integrateTwist.
    rewrite rotation_mul_translation_UnitZ, Hvec. reflexivity. }
  assert (Hangle : angle = 1%R) by (unfold angle; lra).
  assert (Hradius : radius = 1%R) by (unfold radius, distance, angle; lra).
  pose proof sin_1_pos as Hsin. pose proof cos_1_lt_1 as Hcos1.
  pose proof cos_1_pos as Hcos0.
  pose proof (sin2_cos2 1) as Hunit. unfold Rsqr in Hunit.
  split; [exact Hbig |]. split; [exact Hvec |].
  rewrite Hret. cbn [Eigen.linear Eigen.translation].
  split; [reflexivity |]. split; [reflexivity |]. split; [reflexivity |].
  unfold arc_displacement, Eigen.mat_vec, Rz; cbn.
  rewrite Hangle, Hradius. split; intros Heq; nra.
Qed.

(** C2 (the code departs from it).  The command [linear.x = 1],
    [angular.z = 1] with a step of one second is an arc of angle 1 and
    radius 1.  The translation of the transform [integrateTwist] returns,
    which is the displacement in the frame of the pose the step starts
    from once the transform is multiplied onto the right of the test
    pose, is the arc displacement turned by the heading change, and it is
    not the arc displacement [(sin 1 * 1, 1 - cos 1 * 1)] itself. *)
Theorem integrateTwist_translation_is_turned :
  let msg := geometry_msgs.mkTwist (geometry_msgs.mkVector3 1 0 0)
                                   (geometry_msgs.mkVector3 0 0 1) in
  let angle := (1 * 1)%R in
  let radius := (1 * 1 / angle)%R in
  Eigen.translation (integrateTwist msg 1)
  = Eigen.mat_vec (Rz angle) (arc_displacement angle radius)
  ∧ Eigen.translation (integrateTwist msg 1) ≠ arc_displacement angle radius
  ∧ ∀ test_pose,
      Eigen.translation (Eigen.mul test_pose (integrateTwist msg 1))
      = Eigen.apply test_pose (Eigen.mat_vec (Rz angle) (arc_displacement angle radius)).
Proof.
  intros msg angle radius.
  assert (Hbig : ¬ (Rabs (geometry_msgs.z (geometry_msgs.angular msg)) < 0.0001)%R).
  { cbn. rewrite Rabs_R1. lra. }
  pose proof (integrateTwist_arc_translation msg 1 Hbig) as Ht.
  cbn [geometry_msgs.z geometry_msgs.x geometry_msgs.angular geometry_msgs.linear msg] in Ht.
  fold angle in Ht. fold radius in Ht.
  split; [exact Ht |]. split.
  - rewrite Ht. unfold arc_displacement, Eigen.mat_vec, Rz; cbn.
    intros Heq. injection Heq as Hx _.
    replace angle with 1%R in Hx by (unfold angle; lra).
    replace radius with 1%R in Hx by (unfold radius, angle; lra).
    pose proof sin_1_pos. pose proof cos_1_lt_1. nra.
  - intros test_pose. unfold Eigen.mul, Eigen.apply; cbn [Eigen.translation].
    now rewrite Ht.
Qed.

(** ** The robot state under [setVariablePositions] *)

Section RobotStateFacts.

Lemma setVariablePositions_cons (n : string) (names : list string) (p : R)
    (positions : list R) (state : moveit.RobotState) :
  moveit.setVariablePositions (n :: names) (p :: positions) state
  = moveit.setVariablePositions names positions (<[n := p]> state).
Proof. reflexivity. Qed.

(** A variable that is not named keeps its value. *)
Lemma setVariablePositions_other (names : list string) :
  ∀ (positions : list R) (state : moveit.RobotState) (k : string),
    k ∉ names →
    moveit.setVariablePositions names positions state !! k = state !! k.
Proof.
  induction names as [| n names IH]; intros positions state k Hk; [reflexivity |].
  destruct positions as [| p positions]; [reflexivity |].
  rewrite setVariablePositions_cons, IH.
  - apply lookup_insert_ne. intros ->. apply Hk. left.
  - intros Hin. apply Hk. now right.
Qed.

(** A named variable gets its value from the message, whatever it was. *)
Lemma setVariablePositions_named (names : list string) :
  ∀ (positions : list R) (state state' : moveit.RobotState) (k : string),
    length names = length positions →
    k ∈ names →
    moveit.setVariablePositions names positions state !! k
    = moveit.setVariablePositions names positions state' !! k.
Proof.
  induction names as [| n names IH]; intros positions state state' k Hlen Hk.
  - inversion Hk.
  - destruct positions as [| p positions]; [discriminate Hlen |].
    rewrite !setVariablePositions_cons.
    destruct (decide (k ∈ names)) as [Hin | Hout].
    + apply IH; [now injection Hlen | exact Hin].
    + rewrite !setVariablePositions_other by exact Hout.
      apply list_elem_of_In in Hk. destruct Hk as [<- | Hk].
      * now rewrite !lookup_insert_eq.
      * exfalso. apply Hout. now apply list_elem_of_In.
Qed.

(** The [i]-th name gets the [i]-th position when no name is repeated. *)
Lemma setVariablePositions_nth (names : list string) :
  ∀ (positions : list R) (state : moveit.RobotState) (i : nat) (k : string) (v : R),
    NoDup names →
    names !! i = Some k →
    positions !! i = Some v →
    moveit.setVariablePositions names positions state !! k = Some v.
Proof.
  induction names as [| n names IH]; intros positions state i k v Hnd Hk Hv.
  - discriminate Hk.
  - destruct positions as [| p positions]; [discriminate Hv |].
    rewrite setVariablePositions_cons.
    apply NoDup_cons in Hnd as [Hn Hnd].
    destruct i as [| i]; cbn in Hk, Hv.
    + injection Hk as <-. injection Hv as <-.
      rewrite setVariablePositions_other by exact Hn.
      apply lookup_insert_eq.
    + now apply (IH positions _ i).
Qed.

Lemma virtual_link_names_NoDup : NoDup virtual_link_names.
Proof. apply (bool_decide_unpack _). vm_compute. reflexivity. Qed.

(** Moving the virtual link twice is moving it to the last pose. *)
Lemma candidate_state_idem (pose pose' : Eigen.Affine3d) (q q' : Eigen.Quaterniond)
    (state : moveit.RobotState) :
  candidate_state pose q (candidate_state pose' q' state) = candidate_state pose q state.
Proof.
  apply map_eq. intros k. unfold candidate_state.
  destruct (decide (k ∈ virtual_link_names)) as [Hin | Hout].
  - now apply setVariablePositions_named.
  - now rewrite !setVariablePositions_other by exact Hout.
Qed.

End RobotStateFacts.

(** ** The collision check *)

Section CollisionCheckFacts.

Variable rotation_quaternion : Eigen.Affine3d → Eigen.Quaterniond.
Variable poseEigenToMsg : Eigen.Affine3d → geometry_msgs.Pose.

(** Seven writes into a seven-element array leave nothing of it. *)
Lemma seven_writes (position : list R) (v0 v1 v2 v3 v4 v5 v6 : R) :
  length position = 7%nat →
  <[6%nat := v6]> (<[5%nat := v5]> (<[4%nat := v4]> (<[3%nat := v3]>
    (<[2%nat := v2]> (<[1%nat := v1]> (<[0%nat := v0]> position))))))
  = [v0; v1; v2; v3; v4; v5; v6].
Proof.
  intros Hlen.
  do 7 (destruct position as [| ? position]; [discriminate Hlen |]).
  destruct position; [reflexivity | discriminate Hlen].
Qed.

(** [isInCollision] on a node whose virtual-link message is in order. *)
Lemma isInCollision_eq (pose : Eigen.Affine3d) (s : NavCollisionChecker) :
  virtual_link_ok s →
  isInCollision rotation_quaternion pose s
  = if moveit.collision (check_result pose (rotation_quaternion pose) s)
    then (true, collided_node pose (rotation_quaternion pose) s)
    else (false, checked_node pose (rotation_quaternion pose) s).
Proof.
  intros [Hnames Hlen].
  unfold isInCollision. rewrite (seven_writes _ _ _ _ _ _ _ _ Hlen), Hnames.
  reflexivity.
Qed.

Lemma checked_node_same_setup (pose : Eigen.Affine3d) (q : Eigen.Quaterniond)
    (s : NavCollisionChecker) :
  same_setup s (checked_node pose q s).
Proof.
  unfold same_setup, checked_node; cbn. repeat split; try reflexivity.
  intros pose' q'. apply candidate_state_idem.
Qed.

Lemma same_setup_refl (s : NavCollisionChecker) : same_setup s s.
Proof. unfold same_setup. repeat split; reflexivity. Qed.

Lemma same_setup_trans (s1 s2 s3 : NavCollisionChecker) :
  same_setup s1 s2 → same_setup s2 s3 → same_setup s1 s3.
Proof.
  unfold same_setup.
  intros (A1 & A2 & A3 & A4 & A5 & A6 & A7) (B1 & B2 & B3 & B4 & B5 & B6 & B7).
  repeat split; congruence.
Qed.

Lemma addMarker_same_setup (pose : Eigen.Affine3d) (i : nat) (s : NavCollisionChecker) :
  same_setup s (addMarker poseEigenToMsg pose i s).
Proof. unfold same_setup. repeat split; reflexivity. Qed.

(** The verdict on a pose only depends on the setup. *)
Lemma check_result_same_setup (pose : Eigen.Affine3d) (q : Eigen.Quaterniond)
    (s s' : NavCollisionChecker) :
  same_setup s s' → check_result pose q s' = check_result pose q s.
Proof.
  intros (Hscene & _ & _ & _ & _ & _ & Hstate).
  unfold check_result. now rewrite Hscene, Hstate.
Qed.

Lemma checked_node_ok (pose : Eigen.Affine3d) (q : Eigen.Quaterniond)
    (s : NavCollisionChecker) :
  virtual_link_ok (checked_node pose q s).
Proof. split; reflexivity. Qed.

Lemma addMarker_ok (pose : Eigen.Affine3d) (i : nat) (s : NavCollisionChecker) :
  virtual_link_ok s → virtual_link_ok (addMarker poseEigenToMsg pose i s).
Proof. intros H. exact H. Qed.

(** A query that is not completed leaves the fresh result record as it
    is, and the check says "no collision". *)
Lemma check_result_failing (pose : Eigen.Affine3d) (q : Eigen.Quaterniond)
    (s : NavCollisionChecker) :
  moveit.query (planning_scene_ s) collision_request
               (candidate_state pose q (robot_state_ s)) = moveit.NotCompleted →
  moveit.collision (check_result pose q s) = false.
Proof. intros H. unfold check_result, moveit.checkCollision. now rewrite H. Qed.

End CollisionCheckFacts.

(** ** The rollout loop *)

Section RolloutFacts.

Variable rotation_quaternion : Eigen.Affine3d → Eigen.Quaterniond.
Variable poseEigenToMsg : Eigen.Affine3d → geometry_msgs.Pose.

Lemma predicted_pose_shift (pose_change test_pose : Eigen.Affine3d) (j : nat) :
  predicted_pose pose_change (Eigen.mul test_pose pose_change) j
  = predicted_pose pose_change test_pose (S j).
Proof. unfold predicted_pose. now rewrite Nat.iter_succ_r. Qed.

Lemma isInCollision_verdict (pose : Eigen.Affine3d) (s : NavCollisionChecker) :
  virtual_link_ok s →
  (isInCollision rotation_quaternion pose s).1
  = moveit.collision (check_result pose (rotation_quaternion pose) s).
Proof.
  intros Hok. rewrite (isInCollision_eq _ _ _ Hok).
  now destruct (moveit.collision _).
Qed.

Lemma verdict_same_setup (pose : Eigen.Affine3d) (s s' : NavCollisionChecker) :
  virtual_link_ok s → virtual_link_ok s' → same_setup s s' →
  (isInCollision rotation_quaternion pose s').1
  = (isInCollision rotation_quaternion pose s).1.
Proof.
  intros Hok Hok' Hsame.
  rewrite !isInCollision_verdict by assumption.
  now rewrite (check_result_same_setup _ _ _ _ Hsame).
Qed.

Lemma pose_query_same_setup (pose : Eigen.Affine3d) (s s' : NavCollisionChecker) :
  same_setup s s' →
  pose_query rotation_quaternion s' pose = pose_query rotation_quaternion s pose.
Proof.
  intros (_ & _ & _ & _ & _ & _ & Hstate). unfold pose_query. now rewrite Hstate.
Qed.

Lemma collided_node_trace (pose : Eigen.Affine3d) (q : Eigen.Quaterniond)
    (s : NavCollisionChecker) :
  trace (collided_node pose q s)
  = trace s ++ scene_checkCollision collision_request
                 (candidate_state pose q (robot_state_ s))
            :: collision_report pose q s.
Proof.
  unfold collided_node, collision_report.
  change (collision_state_subscribers (checked_node pose q s))
    with (collision_state_subscribers s).
  destruct (decide (0 < collision_state_subscribers s)%nat);
    cbn; now rewrite <- !app_assoc.
Qed.

Lemma collided_node_same_setup (pose : Eigen.Affine3d) (q : Eigen.Quaterniond)
    (s : NavCollisionChecker) :
  same_setup s (collided_node pose q s).
Proof.
  apply (same_setup_trans _ _ _ (checked_node_same_setup pose q s)).
  unfold collided_node. destruct (decide _); repeat split; reflexivity.
Qed.

Lemma collided_node_ok (pose : Eigen.Affine3d) (q : Eigen.Quaterniond)
    (s : NavCollisionChecker) :
  virtual_link_ok (collided_node pose q s).
Proof. unfold collided_node. destruct (decide _); split; reflexivity. Qed.

Lemma collided_node_markers (pose : Eigen.Affine3d) (q : Eigen.Quaterniond)
    (s : NavCollisionChecker) :
  marker_array_ (collided_node pose q s) = marker_array_ s.
Proof. unfold collided_node. now destruct (decide _). Qed.

(** A run of the loop in which no pose collides: every pose is queried
    and marked, and the loop ends without returning. *)
Lemma roll_out_clear (msg : geometry_msgs.Twist) (pose_change : Eigen.Affine3d)
    (todo : nat) :
  ∀ (i : nat) (test_pose : Eigen.Affine3d) (s : NavCollisionChecker),
    virtual_link_ok s →
    (∀ j, (j < todo)%nat →
       (isInCollision rotation_quaternion
          (predicted_pose pose_change test_pose (S j)) s).1 = false) →
    ∃ s',
      roll_out rotation_quaternion poseEigenToMsg todo i msg pose_change test_pose s
      = (false, s')
      ∧ virtual_link_ok s'
      ∧ same_setup s s'
      ∧ trace s'
        = trace s
          ++ ((fun j => pose_query rotation_quaternion s
                          (predicted_pose pose_change test_pose (S j)))
              <$> seq 0 todo)
      ∧ marker_array_ s'
        = marker_array_ s
          ++ ((fun j => rollout_marker poseEigenToMsg
                          (predicted_pose pose_change test_pose (S j)) (i + j))
              <$> seq 0 todo).
Proof.
  induction todo as [| todo IH]; intros i test_pose s Hok Hclear.
  - exists s. cbn. rewrite !app_nil_r.
    repeat split; try reflexivity; try apply Hok.
  - set (pose1 := Eigen.mul test_pose pose_change).
    set (s1 := addMarker poseEigenToMsg pose1 i s).
    set (s2 := checked_node pose1 (rotation_quaternion pose1) s1).
    assert (Hok1 : virtual_link_ok s1) by exact Hok.
    assert (Hsame1 : same_setup s s1) by apply addMarker_same_setup.
    assert (Hsame2 : same_setup s s2).
    { apply (same_setup_trans _ _ _ Hsame1), checked_node_same_setup. }
    assert (Hok2 : virtual_link_ok s2) by apply checked_node_ok.
    assert (Hfirst : moveit.collision
                       (check_result pose1 (rotation_quaternion pose1) s1) = false).
    { rewrite <- isInCollision_verdict by exact Hok1.
      rewrite (verdict_same_setup _ _ _ Hok Hok1 Hsame1).
      apply (Hclear 0%nat). lia. }
    destruct (IH (S i) pose1 s2 Hok2) as (s' & Hrun & Hok' & Hsame' & Htrace & Hmarkers).
    { intros j Hj. unfold pose1. rewrite predicted_pose_shift.
      rewrite (verdict_same_setup _ _ _ Hok Hok2 Hsame2).
      apply Hclear. lia. }
    exists s'. split; [| split; [exact Hok' | split; [| split]]].
    + cbn [roll_out]. fold pose1. fold s1.
      rewrite (isInCollision_eq _ _ _ Hok1), Hfirst. exact Hrun.
    + exact (same_setup_trans _ _ _ Hsame2 Hsame').
    + rewrite Htrace. cbn [seq]. rewrite fmap_cons, <- fmap_S_seq.
      change (trace s2) with (trace s ++ [pose_query rotation_quaternion s1 pose1]).
      rewrite (pose_query_same_setup _ _ _ Hsame1), <- app_assoc. cbn [app].
      f_equal. f_equal. rewrite <- list_fmap_compose. apply list_fmap_ext.
      intros ? j _. unfold compose, pose1. rewrite predicted_pose_shift.
      apply (pose_query_same_setup _ _ _ Hsame2).
    + rewrite Hmarkers. cbn [seq]. rewrite fmap_cons, <- fmap_S_seq.
      change (marker_array_ s2)
        with (marker_array_ s ++ [rollout_marker poseEigenToMsg pose1 i]).
      rewrite <- app_assoc. cbn [app]. rewrite Nat.add_0_r.
      f_equal. f_equal. rewrite <- list_fmap_compose. apply list_fmap_ext.
      intros ? j _. unfold compose, pose1. rewrite predicted_pose_shift.
      f_equal. lia.
Qed.

Lemma collision_report_same_setup (pose : Eigen.Affine3d) (q : Eigen.Quaterniond)
    (s s' : NavCollisionChecker) :
  same_setup s s' → collision_report pose q s' = collision_report pose q s.
Proof.
  intros Hsame. unfold collision_report.
  rewrite (check_result_same_setup _ _ _ _ Hsame).
  destruct Hsame as (_ & _ & _ & _ & _ & -> & ->). reflexivity.
Qed.

(** A run of the loop whose pass [S k] is the first to report a
    collision: the poses up to that one are queried and marked, the
    stopped command and the markers are published, and the callback
    returns from inside the loop. *)
Lemma roll_out_blocked (msg : geometry_msgs.Twist) (pose_change : Eigen.Affine3d)
    (k : nat) :
  ∀ (todo i : nat) (test_pose : Eigen.Affine3d) (s : NavCollisionChecker),
    virtual_link_ok s →
    (k < todo)%nat →
    (∀ j, (j < k)%nat →
       (isInCollision rotation_quaternion
          (predicted_pose pose_change test_pose (S j)) s).1 = false) →
    (isInCollision rotation_quaternion
       (predicted_pose pose_change test_pose (S k)) s).1 = true →
    ∃ s',
      roll_out rotation_quaternion poseEigenToMsg todo i msg pose_change test_pose s
      = (true, s')
      ∧ virtual_link_ok s'
      ∧ same_setup s s'
      ∧ marker_array_ s'
        = marker_array_ s
          ++ ((fun j => rollout_marker poseEigenToMsg
                          (predicted_pose pose_change test_pose (S j)) (i + j))
              <$> seq 0 (S k))
      ∧ trace s'
        = trace s
          ++ ((fun j => pose_query rotation_quaternion s
                          (predicted_pose pose_change test_pose (S j)))
              <$> seq 0 (S k))
          ++ collision_report (predicted_pose pose_change test_pose (S k))
               (rotation_quaternion (predicted_pose pose_change test_pose (S k))) s
          ++ [safe_twist_pub (stop msg); marker_pub (marker_array_ s')].
Proof.
  induction k as [| k IH]; intros todo i test_pose s Hok Hk Hclear Hhit;
    (destruct todo as [| todo]; [lia |]);
    set (pose1 := Eigen.mul test_pose pose_change);
    set (s1 := addMarker poseEigenToMsg pose1 i s);
    assert (Hok1 : virtual_link_ok s1) by exact Hok;
    assert (Hsame1 : same_setup s s1) by apply addMarker_same_setup.
  - set (c := collided_node pose1 (rotation_quaternion pose1) s1).
    assert (Hfirst : moveit.collision
                       (check_result pose1 (rotation_quaternion pose1) s1) = true).
    { rewrite <- isInCollision_verdict by exact Hok1.
      now rewrite (verdict_same_setup _ _ _ Hok Hok1 Hsame1). }
    exists (emit (marker_pub (marker_array_ c)) (emit (safe_twist_pub (stop msg)) c)).
    split; [| split; [| split; [| split]]].
    + cbn [roll_out]. fold pose1. fold s1.
      now rewrite (isInCollision_eq _ _ _ Hok1), Hfirst.
    + apply (collided_node_ok pose1 (rotation_quaternion pose1) s1).
    + apply (same_setup_trans _ _ _ Hsame1).
      apply (collided_node_same_setup pose1 (rotation_quaternion pose1) s1).
    + cbn [marker_array_ emit]. unfold c. rewrite collided_node_markers.
      cbn. now rewrite Nat.add_0_r.
    + cbn [trace marker_array_ emit]. unfold c at 1. rewrite collided_node_trace.
      rewrite (collision_report_same_setup _ _ _ _ Hsame1).
      cbn [seq fmap list_fmap]. rewrite <- !app_assoc. cbn [app].
      reflexivity.
  - set (s2 := checked_node pose1 (rotation_quaternion pose1) s1).
    assert (Hsame2 : same_setup s s2).
    { apply (same_setup_trans _ _ _ Hsame1), checked_node_same_setup. }
    assert (Hok2 : virtual_link_ok s2) by apply checked_node_ok.
    assert (Hfirst : moveit.collision
                       (check_result pose1 (rotation_quaternion pose1) s1) = false).
    { rewrite <- isInCollision_verdict by exact Hok1.
      rewrite (verdict_same_setup _ _ _ Hok Hok1 Hsame1).
      apply (Hclear 0%nat). lia. }
    destruct (IH todo (S i) pose1 s2 Hok2) as (s' & Hrun & Hok' & Hsame' & Hmarkers & Htrace).
    { lia. }
    { intros j Hj. unfold pose1. rewrite predicted_pose_shift.
      rewrite (verdict_same_setup _ _ _ Hok Hok2 Hsame2).
      apply Hclear. lia. }
    { unfold pose1. rewrite predicted_pose_shift.
      now rewrite (verdict_same_setup _ _ _ Hok Hok2 Hsame2). }
    exists s'. split; [| split; [exact Hok' | split; [| split]]].
    + cbn [roll_out]. fold pose1. fold s1.
      rewrite (isInCollision_eq _ _ _ Hok1), Hfirst. exact Hrun.
    + exact (same_setup_trans _ _ _ Hsame2 Hsame').
    + rewrite Hmarkers.
      change (seq 0 (S (S k))) with (0%nat :: seq 1 (S k)).
      rewrite fmap_cons, <- fmap_S_seq.
      change (marker_array_ s2)
        with (marker_array_ s ++ [rollout_marker poseEigenToMsg pose1 i]).
      rewrite <- app_assoc. cbn [app]. rewrite Nat.add_0_r.
      f_equal. f_equal. rewrite <- list_fmap_compose. apply list_fmap_ext.
      intros ? j _. unfold compose, pose1. rewrite predicted_pose_shift.
      f_equal. lia.
    + rewrite Htrace.
      change (seq 0 (S (S k))) with (0%nat :: seq 1 (S k)).
      rewrite fmap_cons, <- fmap_S_seq.
      change (trace s2) with (trace s ++ [pose_query rotation_quaternion s1 pose1]).
      rewrite (pose_query_same_setup _ _ _ Hsame1), <- !app_assoc. cbn [app].
      unfold pose1. rewrite !predicted_pose_shift.
      rewrite (collision_report_same_setup _ _ _ _ Hsame2).
      f_equal. f_equal. f_equal.
      rewrite <- list_fmap_compose. apply list_fmap_ext.
      intros ? j _. unfold compose, pose1. rewrite predicted_pose_shift.
      apply (pose_query_same_setup _ _ _ Hsame2).
Qed.

(** *** What a trace says to each listener *)

Lemma published_twists_app (l1 l2 : list Event) :
  published_twists (l1 ++ l2) = published_twists l1 ++ published_twists l2.
Proof. apply omap_app. Qed.

Lemma collision_queries_app (l1 l2 : list Event) :
  collision_queries (l1 ++ l2) = collision_queries l1 ++ collision_queries l2.
Proof. apply omap_app. Qed.

Lemma published_markers_app (l1 l2 : list Event) :
  published_markers (l1 ++ l2) = published_markers l1 ++ published_markers l2.
Proof. apply omap_app. Qed.

Lemma published_twists_queries (s : NavCollisionChecker) (f : nat → Eigen.Affine3d)
    (l : list nat) :
  published_twists ((fun j => pose_query rotation_quaternion s (f j)) <$> l) = [].
Proof. induction l as [| j l IH]; [reflexivity | exact IH]. Qed.

Lemma published_markers_queries (s : NavCollisionChecker) (f : nat → Eigen.Affine3d)
    (l : list nat) :
  published_markers ((fun j => pose_query rotation_quaternion s (f j)) <$> l) = [].
Proof. induction l as [| j l IH]; [reflexivity | exact IH]. Qed.

Lemma collision_queries_queries (s : NavCollisionChecker) (f : nat → Eigen.Affine3d)
    (l : list nat) :
  collision_queries ((fun j => pose_query rotation_quaternion s (f j)) <$> l)
  = (fun j => candidate_state (f j) (rotation_quaternion (f j)) (robot_state_ s)) <$> l.
Proof.
  induction l as [| j l IH]; [reflexivity |].
  cbn. f_equal. exact IH.
Qed.

Lemma collision_report_quiet (pose : Eigen.Affine3d) (q : Eigen.Quaterniond)
    (s : NavCollisionChecker) :
  published_twists (collision_report pose q s) = []
  ∧ collision_queries (collision_report pose q s) = []
  ∧ published_markers (collision_report pose q s) = [].
Proof. unfold collision_report. destruct (decide _); repeat split; reflexivity. Qed.

Lemma stop_zero (msg : geometry_msgs.Twist) : stop msg = zero_twist.
Proof. reflexivity. Qed.

(** *** The callback around the loop *)

Lemma twistCallback_rollout (msg : geometry_msgs.Twist) (s : NavCollisionChecker)
    (robot_pose : geometry_msgs.Pose) :
  p_pass_through_ s = false →
  robot_pose_ptr_ s = Some robot_pose →
  twistCallback rotation_quaternion poseEigenToMsg msg s
  = let r := roll_out rotation_quaternion poseEigenToMsg (loop_bound s) 0 msg
               (integrateTwist msg (p_roll_out_step_time_ s))
               (poseMsgToEigen robot_pose) (set_marker_array_ [] s) in
    if r.1 then r.2
    else emit (safe_twist_pub msg) (emit (marker_pub (marker_array_ r.2)) r.2).
Proof.
  intros Hpass Hpose. unfold twistCallback. rewrite Hpass, Hpose.
  cbn zeta. now destruct (roll_out _ _ _ _ _ _ _ _) as [[] ?].
Qed.

Lemma twistCallback_clear (msg : geometry_msgs.Twist) (s : NavCollisionChecker)
    (robot_pose : geometry_msgs.Pose) :
  virtual_link_ok s →
  p_pass_through_ s = false →
  robot_pose_ptr_ s = Some robot_pose →
  (∀ j, (j < loop_bound s)%nat →
     (isInCollision rotation_quaternion (rollout_pose s msg robot_pose (S j)) s).1
     = false) →
  let s' := twistCallback rotation_quaternion poseEigenToMsg msg s in
  trace s'
  = trace s
    ++ ((fun j => pose_query rotation_quaternion s (rollout_pose s msg robot_pose (S j)))
        <$> seq 0 (loop_bound s))
    ++ [marker_pub (marker_array_ s'); safe_twist_pub msg]
  ∧ marker_array_ s'
    = (fun j => rollout_marker poseEigenToMsg (rollout_pose s msg robot_pose (S j)) j)
      <$> seq 0 (loop_bound s).
Proof.
  intros Hok Hpass Hpose Hclear s'. subst s'.
  rewrite (twistCallback_rollout _ _ _ Hpass Hpose).
  set (s0 := set_marker_array_ [] s).
  assert (Hsame0 : same_setup s s0) by (repeat split; reflexivity).
  destruct (roll_out_clear msg (integrateTwist msg (p_roll_out_step_time_ s))
              (loop_bound s) 0 (poseMsgToEigen robot_pose) s0 Hok)
    as (s1 & Hrun & _ & _ & Htrace & Hmarkers).
  { intros j Hj. rewrite (verdict_same_setup _ s s0 Hok Hok Hsame0).
    now apply Hclear. }
  cbn zeta. rewrite Hrun. cbn [fst snd trace marker_array_ emit].
  split.
  - rewrite Htrace, <- !app_assoc. reflexivity.
  - exact Hmarkers.
Qed.

Lemma twistCallback_blocked (msg : geometry_msgs.Twist) (s : NavCollisionChecker)
    (robot_pose : geometry_msgs.Pose) (k : nat) :
  virtual_link_ok s →
  p_pass_through_ s = false →
  robot_pose_ptr_ s = Some robot_pose →
  (k < loop_bound s)%nat →
  (∀ j, (j < k)%nat →
     (isInCollision rotation_quaternion (rollout_pose s msg robot_pose (S j)) s).1
     = false) →
  (isInCollision rotation_quaternion (rollout_pose s msg robot_pose (S k)) s).1 = true →
  let s' := twistCallback rotation_quaternion poseEigenToMsg msg s in
  trace s'
  = trace s
    ++ ((fun j => pose_query rotation_quaternion s (rollout_pose s msg robot_pose (S j)))
        <$> seq 0 (S k))
    ++ collision_report (rollout_pose s msg robot_pose (S k))
         (rotation_quaternion (rollout_pose s msg robot_pose (S k))) s
    ++ [safe_twist_pub (stop msg); marker_pub (marker_array_ s')]
  ∧ marker_array_ s'
    = (fun j => rollout_marker poseEigenToMsg (rollout_pose s msg robot_pose (S j)) j)
      <$> seq 0 (S k).
Proof.
  intros Hok Hpass Hpose Hk Hclear Hhit s'. subst s'.
  rewrite (twistCallback_rollout _ _ _ Hpass Hpose).
  set (s0 := set_marker_array_ [] s).
  assert (Hsame0 : same_setup s s0) by (repeat split; reflexivity).
  destruct (roll_out_blocked msg (integrateTwist msg (p_roll_out_step_time_ s))
              k (loop_bound s) 0 (poseMsgToEigen robot_pose) s0 Hok Hk)
    as (s1 & Hrun & _ & _ & Hmarkers & Htrace).
  { intros j Hj. rewrite (verdict_same_setup _ s s0 Hok Hok Hsame0).
    now apply Hclear. }
  { now rewrite (verdict_same_setup _ s s0 Hok Hok Hsame0). }
  cbn zeta. rewrite Hrun. cbn [fst snd].
  split.
  - rewrite Htrace. reflexivity.
  - exact Hmarkers.
Qed.

End RolloutFacts.

(** ** What every callback keeps *)

Section Invariants.

Variable rotation_quaternion : Eigen.Affine3d → Eigen.Quaterniond.
Variable poseEigenToMsg : Eigen.Affine3d → geometry_msgs.Pose.
Variable Octomap : Type.
Variable processOctomapMsg : Octomap → moveit.PlanningScene → moveit.PlanningScene.

Lemma roll_out_keeps (msg : geometry_msgs.Twist) (pose_change : Eigen.Affine3d)
    (todo : nat) :
  ∀ (i : nat) (test_pose : Eigen.Affine3d) (s : NavCollisionChecker),
    virtual_link_ok s →
    let r := roll_out rotation_quaternion poseEigenToMsg todo i msg pose_change
               test_pose s in
    virtual_link_ok r.2 ∧ same_setup s r.2.
Proof.
  induction todo as [| todo IH]; intros i test_pose s Hok; cbn zeta.
  - split; [exact Hok | apply same_setup_refl].
  - cbn [roll_out].
    set (pose1 := Eigen.mul test_pose pose_change).
    set (s1 := addMarker poseEigenToMsg pose1 i s).
    assert (Hok1 : virtual_link_ok s1) by exact Hok.
    assert (Hsame1 : same_setup s s1) by apply addMarker_same_setup.
    rewrite (isInCollision_eq _ _ _ Hok1).
    destruct (moveit.collision _).
    + cbn [snd]. split.
      * apply (collided_node_ok pose1 (rotation_quaternion pose1) s1).
      * apply (same_setup_trans _ _ _ Hsame1).
        apply (collided_node_same_setup pose1 (rotation_quaternion pose1) s1).
    + destruct (IH (S i) pose1 (checked_node pose1 (rotation_quaternion pose1) s1))
        as [Hok' Hsame']; [apply checked_node_ok |].
      split; [exact Hok' |].
      apply (same_setup_trans _ _ _ Hsame1).
      apply (same_setup_trans _ _ _
               (checked_node_same_setup pose1 (rotation_quaternion pose1) s1)).
      exact Hsame'.
Qed.

Lemma twistCallback_keeps (msg : geometry_msgs.Twist) (s : NavCollisionChecker) :
  virtual_link_ok s →
  virtual_link_ok (twistCallback rotation_quaternion poseEigenToMsg msg s)
  ∧ p_roll_out_steps_ (twistCallback rotation_quaternion poseEigenToMsg msg s)
    = p_roll_out_steps_ s.
Proof.
  intros Hok. unfold twistCallback.
  destruct (p_pass_through_ s); [split; [exact Hok | reflexivity] |].
  destruct (robot_pose_ptr_ s) as [robot_pose |]; [| split; [exact Hok | reflexivity]].
  pose proof (roll_out_keeps msg (integrateTwist msg (p_roll_out_step_time_ s))
                (loop_bound s) 0 (poseMsgToEigen robot_pose)
                (set_marker_array_ [] s) Hok) as [Hok' Hsame'].
  destruct (roll_out _ _ _ _ _ _ _ _) as [[] s']; cbn [snd] in *.
  - split; [exact Hok' | apply Hsame'].
  - split; [exact Hok' | apply Hsame'].
Qed.

(** Whatever the node has been through, its virtual-link message is in
    order and its step count is an [int]. *)
Lemma reachable_ok (s : NavCollisionChecker) :
  reachable rotation_quaternion poseEigenToMsg Octomap processOctomapMsg s →
  virtual_link_ok s ∧ is_int (p_roll_out_steps_ s).
Proof.
  induction 1 as [config state scene n Hint | msg s _ [Hok Hint] | msg s _ [Hok Hint]
                  | msg s _ [Hok Hint] | msg s _ [Hok Hint]
                  | config s Hcfg _ [Hok Hint] | n s _ [Hok Hint]].
  - split; [split; reflexivity | exact Hint].
  - split; assumption.
  - split; assumption.
  - split; assumption.
  - destruct (twistCallback_keeps msg s Hok) as [Hok' Hsteps].
    split; [exact Hok' | now rewrite Hsteps].
  - split; [exact Hok | exact Hcfg].
  - split; assumption.
Qed.

End Invariants.

(** ** Straight rollouts from the origin, and the wall *)

Section Scenarios.
Local Open Scope R_scope.

Variable rotation_quaternion : Eigen.Affine3d → Eigen.Quaterniond.

Lemma integrateTwist_forward (step_time : R) :
  integrateTwist forward_cmd step_time
  = Eigen.mkAffine3d Eigen.Identity (Eigen.mkVector3d (1 * step_time) 0 0).
Proof.
  assert (Hsmall : Rabs (geometry_msgs.z (geometry_msgs.angular forward_cmd)) < 0.0001).
  { cbn. rewrite Rabs_R0. lra. }
  unfold integrateTwist. rewrite rotation_mul_translation_UnitZ.
  rewrite (int_vec_straight _ _ Hsmall); cbn [Eigen.x Eigen.y Eigen.z].
  now rewrite Rz_0, mat_vec_Identity.
Qed.

Lemma poseMsgToEigen_origin :
  poseMsgToEigen origin_pose = Eigen.mkAffine3d Eigen.Identity Eigen.Zero.
Proof.
  unfold poseMsgToEigen, Eigen.quat_toRotationMatrix, Eigen.Identity, Eigen.Zero; cbn.
  f_equal. f_equal; ring.
Qed.

(** Step [j] of the rollout of the forward command from the origin is
    [j] step lengths straight ahead. *)
Lemma forward_rollout_pose (s : NavCollisionChecker) (j : nat) :
  rollout_pose s forward_cmd origin_pose j
  = Eigen.mkAffine3d Eigen.Identity
      (Eigen.mkVector3d (INR j * (1 * p_roll_out_step_time_ s)) 0 0).
Proof.
  unfold rollout_pose. rewrite integrateTwist_forward, poseMsgToEigen_origin.
  induction j as [| j IH].
  - cbn. unfold Eigen.Zero. f_equal. f_equal. ring.
  - unfold predicted_pose in *. rewrite Nat.iter_succ, IH, S_INR.
    unfold Eigen.mul, Eigen.mat_mul, Eigen.mat_vec, Eigen.vec_add, Eigen.Identity; cbn.
    f_equal; f_equal; ring.
Qed.

Lemma candidate_state_trans_x (pose : Eigen.Affine3d) (q : Eigen.Quaterniond)
    (state : moveit.RobotState) :
  candidate_state pose q state !! "world_virtual_joint/trans_x"
  = Some (Eigen.x (Eigen.translation pose)).
Proof.
  apply (setVariablePositions_nth _ _ _ 0%nat);
    [apply virtual_link_names_NoDup | reflexivity | reflexivity].
Qed.

(** In front of the wall the check is clear, at the wall or beyond it
    reports a collision. *)
Lemma wall_verdict (limit : R) (pose : Eigen.Affine3d) (s : NavCollisionChecker) :
  virtual_link_ok s →
  planning_scene_ s = wall_scene limit →
  (Eigen.x (Eigen.translation pose) < limit →
   (isInCollision rotation_quaternion pose s).1 = false)
  ∧ (limit <= Eigen.x (Eigen.translation pose) →
     (isInCollision rotation_quaternion pose s).1 = true).
Proof.
  intros Hok Hscene.
  rewrite (isInCollision_verdict _ _ _ Hok).
  unfold check_result, moveit.checkCollision. rewrite Hscene.
  cbn [moveit.query wall_scene]. rewrite candidate_state_trans_x.
  destruct (Rle_dec _ _); split; intros; cbn; (reflexivity || lra).
Qed.

End Scenarios.

(** ** The claims about the rollout filter *)

Lemma loop_bound_nonneg (s : NavCollisionChecker) :
  is_int (p_roll_out_steps_ s) →
  (0 ≤ p_roll_out_steps_ s)%Z →
  Z.of_nat (loop_bound s) = p_roll_out_steps_ s.
Proof.
  unfold is_int, INT_MIN, INT_MAX, loop_bound, size_t_of_int, size_t_bits.
  intros Hint Hpos. rewrite Z.mod_small by lia. lia.
Qed.

Lemma fmap_seq_from_1 {A : Type} (g : nat → A) (n : nat) :
  (fun j => g (S j)) <$> seq 0 n = g <$> seq 1 n.
Proof. now rewrite <- fmap_S_seq, <- list_fmap_compose. Qed.

(** C1.  In a rollout (no pass-through, a robot pose is known) whose step
    [k], with [1 <= k <= horizon_steps], is the first whose predicted pose
    is reported in collision, the filter publishes exactly one command,
    the command with its six fields set to zero, and the collision check
    is put to the scene for the poses of steps [1] to [k] and for no
    other: [k] queries, [k] markers, nothing after step [k]. *)
Theorem first_collision_stops_rollout
    (rotation_quaternion : Eigen.Affine3d → Eigen.Quaterniond)
    (poseEigenToMsg : Eigen.Affine3d → geometry_msgs.Pose)
    (s : NavCollisionChecker) (msg : geometry_msgs.Twist)
    (robot_pose : geometry_msgs.Pose) (k : nat) :
  virtual_link_ok s →
  is_int (p_roll_out_steps_ s) →
  p_pass_through_ s = false →
  robot_pose_ptr_ s = Some robot_pose →
  (1 ≤ k)%nat →
  (Z.of_nat k ≤ p_roll_out_steps_ s)%Z →
  (∀ j, (1 ≤ j < k)%nat →
     (isInCollision rotation_quaternion (rollout_pose s msg robot_pose j) s).1 = false) →
  (isInCollision rotation_quaternion (rollout_pose s msg robot_pose k) s).1 = true →
  let s' := twistCallback rotation_quaternion poseEigenToMsg msg s in
  ∃ new,
    trace s' = trace s ++ new
    ∧ published_twists new = [stop msg]
    ∧ stop msg = zero_twist
    ∧ collision_queries new
      = (fun j => candidate_state (rollout_pose s msg robot_pose j)
                    (rotation_quaternion (rollout_pose s msg robot_pose j))
                    (robot_state_ s))
        <$> seq 1 k
    ∧ length (collision_queries new) = k
    ∧ published_markers new = [marker_array_ s']
    ∧ length (marker_array_ s') = k.
Proof.
  intros Hok Hint Hpass Hpose Hk1 Hk Hclear Hhit s'.
  destruct k as [| k0]; [lia |].
  assert (Hbound : (k0 < loop_bound s)%nat).
  { pose proof (loop_bound_nonneg s Hint). lia. }
  destruct (twistCallback_blocked rotation_quaternion poseEigenToMsg msg s robot_pose k0
              Hok Hpass Hpose Hbound) as [Htrace Hmarkers].
  { intros j Hj. apply Hclear. lia. }
  { exact Hhit. }
  fold s' in Htrace, Hmarkers.
  destruct (collision_report_quiet
              (rollout_pose s msg robot_pose (S k0))
              (rotation_quaternion (rollout_pose s msg robot_pose (S k0))) s)
    as (Hq1 & Hq2 & Hq3).
  eexists. split; [exact Htrace |].
  assert (Hqueries :
    collision_queries
      (((fun j => pose_query rotation_quaternion s (rollout_pose s msg robot_pose (S j)))
        <$> seq 0 (S k0))
       ++ collision_report (rollout_pose s msg robot_pose (S k0))
            (rotation_quaternion (rollout_pose s msg robot_pose (S k0))) s
       ++ [safe_twist_pub (stop msg); marker_pub (marker_array_ s')])
    = (fun j => candidate_state (rollout_pose s msg robot_pose j)
                  (rotation_quaternion (rollout_pose s msg robot_pose j))
                  (robot_state_ s))
      <$> seq 1 (S k0)).
  { rewrite !collision_queries_app, Hq2.
    rewrite (collision_queries_queries rotation_quaternion s
               (fun j => rollout_pose s msg robot_pose (S j))).
    cbn [collision_queries omap list_omap app]. rewrite app_nil_r.
    apply (fmap_seq_from_1
             (fun j => candidate_state (rollout_pose s msg robot_pose j)
                         (rotation_quaternion (rollout_pose s msg robot_pose j))
                         (robot_state_ s))). }
  repeat split.
  - rewrite !published_twists_app, Hq1.
    rewrite (published_twists_queries rotation_quaternion s
               (fun j => rollout_pose s msg robot_pose (S j))).
    reflexivity.
  - exact Hqueries.
  - rewrite Hqueries. now rewrite length_fmap, length_seq.
  - rewrite !published_markers_app, Hq3.
    rewrite (published_markers_queries rotation_quaternion s
               (fun j => rollout_pose s msg robot_pose (S j))).
    reflexivity.
  - rewrite Hmarkers. now rewrite length_fmap, length_seq.
Qed.

(** The filter of a robot at the origin, with steps of half a second and
    a horizon of ten, is told to drive at one metre per second towards a
    wall 1.25 m ahead: step 3 is the first to collide. *)
Lemma first_collision_stops_rollout_witness :
  let s := located_node (mkConfig 0.5 10 false) (wall_scene 1.25) in
  ∃ new,
    trace (twistCallback upright_quaternion upright_pose_msg forward_cmd s)
    = trace s ++ new
    ∧ published_twists new = [zero_twist]
    ∧ length (collision_queries new) = 3%nat.
Proof.
  intros s.
  assert (Hok : virtual_link_ok s) by (split; reflexivity).
  assert (Hint : is_int (p_roll_out_steps_ s)).
  { unfold is_int, INT_MIN, INT_MAX. cbn. lia. }
  assert (Hk : (Z.of_nat 3 ≤ p_roll_out_steps_ s)%Z) by (cbn; lia).
  assert (Hclear : ∀ j, (1 ≤ j < 3)%nat →
            (isInCollision upright_quaternion (rollout_pose s forward_cmd origin_pose j) s).1
            = false).
  { intros j Hj.
    apply (wall_verdict upright_quaternion 1.25 _ s Hok eq_refl).
    rewrite forward_rollout_pose. cbn [Eigen.x Eigen.translation].
    change (p_roll_out_step_time_ s) with 0.5%R.
    assert (Hcases : j = 1%nat ∨ j = 2%nat) by lia.
    destruct Hcases as [-> | ->]; cbn [INR]; lra. }
  assert (Hhit : (isInCollision upright_quaternion
                    (rollout_pose s forward_cmd origin_pose 3) s).1 = true).
  { apply (wall_verdict upright_quaternion 1.25 _ s Hok eq_refl).
    rewrite forward_rollout_pose. cbn [Eigen.x Eigen.translation INR].
    change (p_roll_out_step_time_ s) with 0.5%R. lra. }
  destruct (first_collision_stops_rollout upright_quaternion upright_pose_msg s
              forward_cmd origin_pose 3 Hok Hint eq_refl eq_refl (le_S _ _ (le_S _ _ (le_n 1)))
              Hk Hclear Hhit)
    as (new & Htrace & Htwists & Hzero & _ & Hlen & _).
  exists new. split; [exact Htrace |]. split; [| exact Hlen].
  now rewrite Htwists, Hzero.
Defined.

Lemma free_verdict (rotation_quaternion : Eigen.Affine3d → Eigen.Quaterniond)
    (pose : Eigen.Affine3d) (s : NavCollisionChecker) :
  virtual_link_ok s →
  planning_scene_ s = free_scene →
  (isInCollision rotation_quaternion pose s).1 = false.
Proof.
  intros Hok Hscene. rewrite (isInCollision_verdict _ _ _ Hok).
  unfold check_result, moveit.checkCollision. now rewrite Hscene.
Qed.

Lemma blocked_verdict (rotation_quaternion : Eigen.Affine3d → Eigen.Quaterniond)
    (pose : Eigen.Affine3d) (s : NavCollisionChecker) :
  virtual_link_ok s →
  planning_scene_ s = blocked_scene →
  (isInCollision rotation_quaternion pose s).1 = true.
Proof.
  intros Hok Hscene. rewrite (isInCollision_verdict _ _ _ Hok).
  unfold check_result, moveit.checkCollision. now rewrite Hscene.
Qed.

(** C8.  When no evaluated step of the rollout is in collision the
    filter publishes exactly one command, the original one, unchanged;
    and with [horizon_steps = 0] it does so without putting a single
    query to the scene, whatever the scene holds. *)
Theorem clear_rollout_forwards_command
    (rotation_quaternion : Eigen.Affine3d → Eigen.Quaterniond)
    (poseEigenToMsg : Eigen.Affine3d → geometry_msgs.Pose)
    (s : NavCollisionChecker) (msg : geometry_msgs.Twist) :
  virtual_link_ok s →
  let s' := twistCallback rotation_quaternion poseEigenToMsg msg s in
  ((∀ robot_pose j,
      robot_pose_ptr_ s = Some robot_pose →
      (1 ≤ j ≤ loop_bound s)%nat →
      (isInCollision rotation_quaternion (rollout_pose s msg robot_pose j) s).1 = false) →
   ∃ new, trace s' = trace s ++ new ∧ published_twists new = [msg])
  ∧ (p_roll_out_steps_ s = 0%Z →
     ∃ new, trace s' = trace s ++ new
            ∧ published_twists new = [msg]
            ∧ collision_queries new = []).
Proof.
  intros Hok s'.
  assert (Hmodes :
    ∀ n, loop_bound s = n →
      (∀ robot_pose j,
         robot_pose_ptr_ s = Some robot_pose →
         (1 ≤ j ≤ n)%nat →
         (isInCollision rotation_quaternion (rollout_pose s msg robot_pose j) s).1 = false) →
      ∃ new, trace s' = trace s ++ new
             ∧ published_twists new = [msg]
             ∧ (n = 0%nat → collision_queries new = [])).
  { intros n Hn Hclear. subst s'.
    destruct (p_pass_through_ s) eqn:Hpass.
    { exists [safe_twist_pub msg]. unfold twistCallback. rewrite Hpass.
      repeat split. }
    destruct (robot_pose_ptr_ s) as [robot_pose |] eqn:Hpose.
    2:{ exists [ROS_WARN_THROTTLE 3 pose_warning; safe_twist_pub msg].
        unfold twistCallback. rewrite Hpass, Hpose. cbn [trace emit].
        rewrite <- app_assoc. repeat split. }
    destruct (twistCallback_clear rotation_quaternion poseEigenToMsg msg s robot_pose
                Hok Hpass Hpose) as [Htrace _].
    { intros j Hj. apply Hclear; [reflexivity | lia]. }
    eexists. split; [exact Htrace |]. split.
    - rewrite published_twists_app.
      rewrite (published_twists_queries rotation_quaternion s
                 (fun j => rollout_pose s msg robot_pose (S j))).
      reflexivity.
    - intros ->. rewrite Hn. reflexivity. }
  split.
  - intros Hclear.
    destruct (Hmodes (loop_bound s) eq_refl Hclear) as (new & Htrace & Htwists & _).
    exists new. split; assumption.
  - intros Hzero.
    assert (Hbound : loop_bound s = 0%nat).
    { unfold loop_bound. now rewrite Hzero. }
    destruct (Hmodes 0%nat Hbound) as (new & Htrace & Htwists & Hqueries).
    { intros robot_pose j _ Hj. lia. }
    exists new. repeat split; [exact Htrace | exact Htwists | now apply Hqueries].
Qed.

(** Four half-second steps straight ahead in free space: the command
    goes through. *)
Lemma clear_rollout_forwards_command_witness :
  let s := located_node (mkConfig 0.5 4 false) free_scene in
  virtual_link_ok s
  ∧ ∃ new,
      trace (twistCallback upright_quaternion upright_pose_msg forward_cmd s)
      = trace s ++ new
      ∧ published_twists new = [forward_cmd].
Proof.
  intros s.
  assert (Hok : virtual_link_ok s) by (split; reflexivity).
  split; [exact Hok |].
  destruct (clear_rollout_forwards_command upright_quaternion upright_pose_msg s
              forward_cmd Hok) as [Hclear _].
  apply Hclear. intros robot_pose j _ _.
  exact (free_verdict upright_quaternion _ s Hok eq_refl).
Defined.

(** C7.  With the pass-through flag set the callback publishes the
    command as it came and does nothing else: no query, no marker, no
    change to the node, whatever the scene. *)
Theorem pass_through_forwards_command
    (rotation_quaternion : Eigen.Affine3d → Eigen.Quaterniond)
    (poseEigenToMsg : Eigen.Affine3d → geometry_msgs.Pose)
    (s : NavCollisionChecker) (msg : geometry_msgs.Twist) :
  p_pass_through_ s = true →
  twistCallback rotation_quaternion poseEigenToMsg msg s = emit (safe_twist_pub msg) s
  ∧ trace (twistCallback rotation_quaternion poseEigenToMsg msg s)
    = trace s ++ [safe_twist_pub msg].
Proof.
  intros Hpass. unfold twistCallback. rewrite Hpass. split; reflexivity.
Qed.

(** A robot that collides wherever it is, first predicted step
    included, with the pass-through flag set. *)
Lemma pass_through_forwards_command_witness :
  let s := located_node (mkConfig 0.5 10 true) blocked_scene in
  (isInCollision upright_quaternion (rollout_pose s forward_cmd origin_pose 1) s).1 = true
  ∧ trace (twistCallback upright_quaternion upright_pose_msg forward_cmd s)
    = trace s ++ [safe_twist_pub forward_cmd].
Proof.
  intros s. split.
  - apply blocked_verdict; [split; reflexivity | reflexivity].
  - exact (proj2 (pass_through_forwards_command upright_quaternion upright_pose_msg s
                    forward_cmd eq_refl)).
Defined.

(** C6.  When no robot pose has ever been received, the callback
    publishes the command as it came, whatever the scene holds and
    without putting a single query to it; and when it comes to the pose
    test, that is with the pass-through flag not set, it reports the
    throttled warning first: the warning and the command are then all
    it does. *)
Theorem missing_pose_forwards_command
    (rotation_quaternion : Eigen.Affine3d → Eigen.Quaterniond)
    (poseEigenToMsg : Eigen.Affine3d → geometry_msgs.Pose)
    (s : NavCollisionChecker) (msg : geometry_msgs.Twist) :
  robot_pose_ptr_ s = None →
  let s' := twistCallback rotation_quaternion poseEigenToMsg msg s in
  ∃ new,
    trace s' = trace s ++ new
    ∧ published_twists new = [msg]
    ∧ collision_queries new = []
    ∧ (p_pass_through_ s = false →
       new = [ROS_WARN_THROTTLE 3 pose_warning; safe_twist_pub msg]
       ∧ warnings new = [(3%R, pose_warning)]).
Proof.
  intros Hpose s'. subst s'. unfold twistCallback. rewrite Hpose.
  destruct (p_pass_through_ s).
  - exists [safe_twist_pub msg]. repeat split; discriminate.
  - exists [ROS_WARN_THROTTLE 3 pose_warning; safe_twist_pub msg].
    cbn [trace emit]. rewrite <- app_assoc. repeat split.
Qed.

(** A node that has no pose yet, in a scene where everything collides. *)
Lemma missing_pose_forwards_command_witness :
  let s := fresh_node (mkConfig 0.5 10 false) blocked_scene in
  robot_pose_ptr_ s = None
  ∧ ∃ new,
      trace (twistCallback upright_quaternion upright_pose_msg forward_cmd s)
      = trace s ++ new
      ∧ published_twists new = [forward_cmd]
      ∧ collision_queries new = []
      ∧ warnings new = [(3%R, pose_warning)].
Proof.
  intros s. split; [reflexivity |].
  destruct (missing_pose_forwards_command upright_quaternion upright_pose_msg s
              forward_cmd eq_refl) as (new & Htrace & Htwists & Hqueries & Hwarn).
  exists new. repeat split; [exact Htrace | exact Htwists | exact Hqueries |].
  now apply Hwarn.
Defined.

(** C3, as the code has it, for a query that returns without having set
    the collision flag.  The result record is constructed with the flag
    false and the query is the only one to write it: when the query
    returns without an answer, the record the node reads is the fresh
    one and the check says "no collision" for that pose.  Such a step
    neither ends the rollout nor stops the robot: a rollout in which the
    query of every step returns either without an answer or with the
    answer "no collision" puts every step to the scene and publishes the
    original command unchanged. *)
Theorem query_failure_counts_as_clear
    (rotation_quaternion : Eigen.Affine3d → Eigen.Quaterniond)
    (poseEigenToMsg : Eigen.Affine3d → geometry_msgs.Pose)
    (s : NavCollisionChecker) (msg : geometry_msgs.Twist)
    (robot_pose : geometry_msgs.Pose) :
  virtual_link_ok s →
  p_pass_through_ s = false →
  robot_pose_ptr_ s = Some robot_pose →
  (∀ j, (1 ≤ j ≤ loop_bound s)%nat →
     let pose := rollout_pose s msg robot_pose j in
     let outcome :=
       moveit.query (planning_scene_ s) collision_request
         (candidate_state pose (rotation_quaternion pose) (robot_state_ s)) in
     outcome = moveit.NotCompleted
     ∨ ∃ res, outcome = moveit.Answered res ∧ moveit.collision res = false) →
  let s' := twistCallback rotation_quaternion poseEigenToMsg msg s in
  (∀ pose,
     moveit.query (planning_scene_ s) collision_request
       (candidate_state pose (rotation_quaternion pose) (robot_state_ s))
     = moveit.NotCompleted →
     check_result pose (rotation_quaternion pose) s = moveit.CollisionResult_new
     ∧ isInCollision rotation_quaternion pose s
       = (false, checked_node pose (rotation_quaternion pose) s))
  ∧ (∀ j, (1 ≤ j ≤ loop_bound s)%nat →
       (isInCollision rotation_quaternion (rollout_pose s msg robot_pose j) s).1 = false)
  ∧ ∃ new,
      trace s' = trace s ++ new
      ∧ published_twists new = [msg]
      ∧ length (collision_queries new) = loop_bound s.
Proof.
  intros Hok Hpass Hpose Houtcome s'.
  assert (Hclear : ∀ j, (1 ≤ j ≤ loop_bound s)%nat →
            (isInCollision rotation_quaternion (rollout_pose s msg robot_pose j) s).1
            = false).
  { intros j Hj. rewrite (isInCollision_verdict _ _ _ Hok).
    destruct (Houtcome j Hj) as [Hfail | (res & Hres & Hflag)].
    - now apply check_result_failing.
    - unfold check_result, moveit.checkCollision. now rewrite Hres. }
  split; [| split; [exact Hclear |]].
  { intros pose Hfail.
    assert (Hfresh : check_result pose (rotation_quaternion pose) s
                     = moveit.CollisionResult_new).
    { unfold check_result, moveit.checkCollision. now rewrite Hfail. }
    split; [exact Hfresh |].
    rewrite (isInCollision_eq _ _ _ Hok), Hfresh. reflexivity. }
  destruct (twistCallback_clear rotation_quaternion poseEigenToMsg msg s robot_pose
              Hok Hpass Hpose) as [Htrace _].
  { intros j Hj. apply Hclear. lia. }
  eexists. split; [exact Htrace |]. split.
  - rewrite published_twists_app.
    rewrite (published_twists_queries rotation_quaternion s
               (fun j => rollout_pose s msg robot_pose (S j))).
    reflexivity.
  - rewrite collision_queries_app.
    rewrite (collision_queries_queries rotation_quaternion s
               (fun j => rollout_pose s msg robot_pose (S j))).
    cbn [collision_queries omap list_omap]. rewrite app_nil_r.
    now rewrite length_fmap, length_seq.
Qed.

(** Four steps in a scene none of whose queries ever returns an answer. *)
Lemma query_failure_counts_as_clear_witness :
  let s := located_node (mkConfig 0.5 4 false) failing_scene in
  virtual_link_ok s
  ∧ ∃ new,
      trace (twistCallback upright_quaternion upright_pose_msg forward_cmd s)
      = trace s ++ new
      ∧ published_twists new = [forward_cmd]
      ∧ length (collision_queries new) = loop_bound s.
Proof.
  intros s.
  assert (Hok : virtual_link_ok s) by (split; reflexivity).
  split; [exact Hok |].
  destruct (query_failure_counts_as_clear upright_quaternion upright_pose_msg s
              forward_cmd origin_pose Hok eq_refl eq_refl) as (_ & _ & Hnew).
  - intros j _. left. reflexivity.
  - exact Hnew.
Defined.

(** C3 as it is written fails: every query of this rollout returns
    without an answer, all four steps are queried, and the command that
    comes out is the original one, which is not the zero command. *)
Lemma query_failure_forwards_command :
  let s := located_node (mkConfig 0.5 4 false) failing_scene in
  let s' := twistCallback upright_quaternion upright_pose_msg forward_cmd s in
  (∀ req state, moveit.query (planning_scene_ s) req state = moveit.NotCompleted)
  ∧ length (collision_queries (trace s')) = 4%nat
  ∧ published_twists (trace s') = [forward_cmd]
  ∧ forward_cmd ≠ zero_twist.
Proof.
  intros s s'.
  assert (Hok : virtual_link_ok s) by (split; reflexivity).
  destruct (twistCallback_clear upright_quaternion upright_pose_msg forward_cmd s
              origin_pose Hok eq_refl eq_refl) as [Htrace _].
  { intros j _. rewrite (isInCollision_verdict _ _ _ Hok).
    now apply check_result_failing. }
  fold s' in Htrace. change (trace s) with (@nil Event) in Htrace.
  change (loop_bound s) with 4%nat in Htrace.
  split; [intros req state; reflexivity |].
  split; [rewrite Htrace; reflexivity |].
  split; [rewrite Htrace; reflexivity |].
  intros Heq. injection Heq as Hx. lra.
Qed.



(** C9.  On a node whose virtual-link message is in order, the collision
    check of a pose leaves in the seven entries of the virtual-link
    message the translation of the pose and the quaternion of its
    rotation, gives each of the seven virtual-link variables of the robot
    state the matching value, and leaves every other variable of the
    robot state as it was.  The quaternion written is the one Eigen
    computes for the rotation of the pose: it is of norm one whenever
    Eigen's conversion yields quaternions of norm one. *)
Theorem isInCollision_writes_virtual_link
    (rotation_quaternion : Eigen.Affine3d → Eigen.Quaterniond)
    (pose : Eigen.Affine3d) (s : NavCollisionChecker) :
  virtual_link_ok s →
  (∀ p, Eigen.squaredNorm (rotation_quaternion p) = 1%R) →
  let s' := (isInCollision rotation_quaternion pose s).2 in
  let q := rotation_quaternion pose in
  sensor_msgs.name (virtual_link_joint_states_ s') = virtual_link_names
  ∧ sensor_msgs.position (virtual_link_joint_states_ s')
    = [ Eigen.x (Eigen.translation pose); Eigen.y (Eigen.translation pose);
        Eigen.z (Eigen.translation pose);
        Eigen.qx q; Eigen.qy q; Eigen.qz q; Eigen.qw q ]
  ∧ (∀ i k v,
       virtual_link_names !! i = Some k →
       sensor_msgs.position (virtual_link_joint_states_ s') !! i = Some v →
       robot_state_ s' !! k = Some v)
  ∧ (∀ k, k ∉ virtual_link_names → robot_state_ s' !! k = robot_state_ s !! k)
  ∧ (∃ vx vy vz vw,
       robot_state_ s' !! "world_virtual_joint/rot_x" = Some vx
       ∧ robot_state_ s' !! "world_virtual_joint/rot_y" = Some vy
       ∧ robot_state_ s' !! "world_virtual_joint/rot_z" = Some vz
       ∧ robot_state_ s' !! "world_virtual_joint/rot_w" = Some vw
       ∧ (vx * vx + vy * vy + vz * vz + vw * vw = 1)%R).
Proof.
  intros Hok Hunit s' q.
  assert (Hstate : robot_state_ s' = candidate_state pose q (robot_state_ s)
                   ∧ virtual_link_joint_states_ s'
                     = sensor_msgs.mkJointState virtual_link_names
                         (virtual_link_values pose q)).
  { subst s'. rewrite (isInCollision_eq _ _ _ Hok).
    destruct (moveit.collision _); cbn [snd]; [| split; reflexivity].
    unfold collided_node. destruct (decide _); split; reflexivity. }
  destruct Hstate as [Hrs Hvl].
  assert (Hnth : ∀ i k v,
            virtual_link_names !! i = Some k →
            virtual_link_values pose q !! i = Some v →
            robot_state_ s' !! k = Some v).
  { intros i k v Hk Hv. rewrite Hrs.
    apply (setVariablePositions_nth _ _ _ i); [apply virtual_link_names_NoDup | |];
      assumption. }
  rewrite Hvl. cbn [sensor_msgs.name sensor_msgs.position].
  split; [reflexivity |]. split; [reflexivity |]. split; [exact Hnth |]. split.
  - intros k Hk. rewrite Hrs. now apply setVariablePositions_other.
  - exists (Eigen.qx q), (Eigen.qy q), (Eigen.qz q), (Eigen.qw q).
    split; [apply (Hnth 3%nat); reflexivity |].
    split; [apply (Hnth 4%nat); reflexivity |].
    split; [apply (Hnth 5%nat); reflexivity |].
    split; [apply (Hnth 6%nat); reflexivity |].
    apply (Hunit pose).
Qed.

(** The check of the origin pose on a node that has just been
    constructed: the forward coordinate of the virtual link is written,
    a joint of the arm is not touched. *)
Lemma isInCollision_writes_virtual_link_witness :
  let s := fresh_node (mkConfig 0.5 10 false) free_scene in
  let pose := poseMsgToEigen origin_pose in
  let s' := (isInCollision upright_quaternion pose s).2 in
  virtual_link_ok s
  ∧ robot_state_ s' !! "world_virtual_joint/trans_x"
    = Some (Eigen.x (Eigen.translation pose))
  ∧ robot_state_ s' !! "arm_joint_0" = robot_state_ s !! "arm_joint_0".
Proof.
  intros s pose s'.
  assert (Hok : virtual_link_ok s) by (split; reflexivity).
  assert (Hunit : ∀ p, Eigen.squaredNorm (upright_quaternion p) = 1%R).
  { intros p. unfold Eigen.squaredNorm, upright_quaternion; cbn. lra. }
  destruct (isInCollision_writes_virtual_link upright_quaternion pose s Hok Hunit)
    as (_ & Hpos & Hnamed & Hother & _).
  split; [exact Hok |]. split.
  - apply (Hnamed 0%nat); [reflexivity |]. rewrite Hpos. reflexivity.
  - apply Hother. unfold virtual_link_names.
    rewrite !not_elem_of_cons. repeat split; try discriminate.
    apply not_elem_of_nil.
Defined.

(** ** The loop bound *)

Section LoopBound.

Variable rotation_quaternion : Eigen.Affine3d → Eigen.Quaterniond.
Variable poseEigenToMsg : Eigen.Affine3d → geometry_msgs.Pose.

(** The loop only ever adds to the trace. *)
Lemma roll_out_extends (msg : geometry_msgs.Twist) (pose_change : Eigen.Affine3d)
    (todo : nat) :
  ∀ (i : nat) (test_pose : Eigen.Affine3d) (s : NavCollisionChecker),
    virtual_link_ok s →
    ∃ rest,
      trace (roll_out rotation_quaternion poseEigenToMsg todo i msg pose_change
               test_pose s).2
      = trace s ++ rest.
Proof.
  induction todo as [| todo IH]; intros i test_pose s Hok.
  - exists []. cbn. now rewrite app_nil_r.
  - cbn [roll_out].
    set (pose1 := Eigen.mul test_pose pose_change).
    set (s1 := addMarker poseEigenToMsg pose1 i s).
    assert (Hok1 : virtual_link_ok s1) by exact Hok.
    rewrite (isInCollision_eq _ _ _ Hok1).
    destruct (moveit.collision _).
    + cbn [snd trace emit]. rewrite collided_node_trace.
      eexists. rewrite <- !app_assoc. reflexivity.
    + destruct (IH (S i) pose1 (checked_node pose1 (rotation_quaternion pose1) s1))
        as [rest Hrest]; [apply checked_node_ok |].
      rewrite Hrest. cbn [trace checked_node emit].
      eexists. rewrite <- !app_assoc. reflexivity.
Qed.

(** A loop with at least one pass puts the first predicted pose to the
    scene, whatever comes after. *)
Lemma roll_out_first_query (msg : geometry_msgs.Twist) (pose_change : Eigen.Affine3d)
    (todo i : nat) (test_pose : Eigen.Affine3d) (s : NavCollisionChecker) :
  virtual_link_ok s →
  ∃ rest,
    trace (roll_out rotation_quaternion poseEigenToMsg (S todo) i msg pose_change
             test_pose s).2
    = trace s
      ++ pose_query rotation_quaternion s (Eigen.mul test_pose pose_change) :: rest.
Proof.
  intros Hok. cbn [roll_out].
  set (pose1 := Eigen.mul test_pose pose_change).
  set (s1 := addMarker poseEigenToMsg pose1 i s).
  assert (Hok1 : virtual_link_ok s1) by exact Hok.
  rewrite (isInCollision_eq _ _ _ Hok1).
  destruct (moveit.collision _).
  - cbn [snd trace emit]. rewrite collided_node_trace.
    eexists. rewrite <- !app_assoc. reflexivity.
  - destruct (roll_out_extends msg pose_change todo (S i) pose1
                (checked_node pose1 (rotation_quaternion pose1) s1))
      as [rest Hrest]; [apply checked_node_ok |].
    cbn [snd]. rewrite Hrest. cbn [trace checked_node emit].
    eexists. rewrite <- !app_assoc. reflexivity.
Qed.

Lemma twistCallback_first_query (msg : geometry_msgs.Twist) (s : NavCollisionChecker)
    (robot_pose : geometry_msgs.Pose) :
  virtual_link_ok s →
  p_pass_through_ s = false →
  robot_pose_ptr_ s = Some robot_pose →
  (0 < loop_bound s)%nat →
  ∃ rest,
    trace (twistCallback rotation_quaternion poseEigenToMsg msg s)
    = trace s
      ++ pose_query rotation_quaternion s (rollout_pose s msg robot_pose 1) :: rest.
Proof.
  intros Hok Hpass Hpose Hbound.
  rewrite (twistCallback_rollout _ _ _ _ _ Hpass Hpose).
  destruct (loop_bound s) as [| todo]; [lia |].
  destruct (roll_out_first_query msg (integrateTwist msg (p_roll_out_step_time_ s))
              todo 0 (poseMsgToEigen robot_pose) (set_marker_array_ [] s) Hok)
    as [rest Hrest].
  cbn zeta.
  destruct (roll_out _ _ _ _ _ _ _ _) as [[] s1]; cbn [fst snd] in *.
  - exists rest. exact Hrest.
  - exists (rest ++ [marker_pub (marker_array_ s1); safe_twist_pub msg]).
    cbn [trace emit]. rewrite Hrest. cbn [trace set_marker_array_].
    rewrite <- !app_assoc. reflexivity.
Qed.

Lemma loop_bound_negative (s : NavCollisionChecker) :
  is_int (p_roll_out_steps_ s) →
  (p_roll_out_steps_ s < 0)%Z →
  Z.of_nat (loop_bound s) = (2 ^ 64 + p_roll_out_steps_ s)%Z.
Proof.
  unfold is_int, INT_MIN, INT_MAX, loop_bound, size_t_of_int, size_t_bits.
  intros Hint Hneg.
  rewrite <- (Z_mod_plus_full (p_roll_out_steps_ s) 1 (2 ^ 64)).
  rewrite Z.mod_small by lia. lia.
Qed.

End LoopBound.

(** C10.  With a negative step count the comparison [i < p_roll_out_steps_]
    is made on [size_t]: the bound of the loop is the step count plus
    [2^64], at least [2^64 - 2^31].  A rollout then puts the first
    predicted pose to the scene whatever happens next, and when no step
    reports a collision it queries [2^64 + horizon_steps] poses before
    the command is forwarded. *)
Theorem negative_horizon_wraps
    (rotation_quaternion : Eigen.Affine3d → Eigen.Quaterniond)
    (poseEigenToMsg : Eigen.Affine3d → geometry_msgs.Pose)
    (s : NavCollisionChecker) (msg : geometry_msgs.Twist)
    (robot_pose : geometry_msgs.Pose) :
  virtual_link_ok s →
  is_int (p_roll_out_steps_ s) →
  (p_roll_out_steps_ s < 0)%Z →
  p_pass_through_ s = false →
  robot_pose_ptr_ s = Some robot_pose →
  let s' := twistCallback rotation_quaternion poseEigenToMsg msg s in
  size_t_of_int (p_roll_out_steps_ s) = (2 ^ 64 + p_roll_out_steps_ s)%Z
  ∧ Z.of_nat (loop_bound s) = (2 ^ 64 + p_roll_out_steps_ s)%Z
  ∧ (2 ^ 64 - 2 ^ 31 ≤ Z.of_nat (loop_bound s))%Z
  ∧ (∃ rest,
       trace s'
       = trace s
         ++ pose_query rotation_quaternion s (rollout_pose s msg robot_pose 1) :: rest)
  ∧ ((∀ j, (1 ≤ j ≤ loop_bound s)%nat →
        (isInCollision rotation_quaternion (rollout_pose s msg robot_pose j) s).1
        = false) →
     ∃ new,
       trace s' = trace s ++ new
       ∧ Z.of_nat (length (collision_queries new)) = (2 ^ 64 + p_roll_out_steps_ s)%Z
       ∧ published_twists new = [msg]).
Proof.
  intros Hok Hint Hneg Hpass Hpose s'.
  pose proof (loop_bound_negative s Hint Hneg) as Hbound.
  assert (Hlow : (2 ^ 64 - 2 ^ 31 ≤ Z.of_nat (loop_bound s))%Z).
  { unfold is_int, INT_MIN in Hint. lia. }
  split.
  { unfold loop_bound in Hbound. unfold size_t_of_int, size_t_bits in *.
    pose proof (Z.mod_pos_bound (p_roll_out_steps_ s) (2 ^ 64)). lia. }
  split; [exact Hbound |]. split; [exact Hlow |]. split.
  - apply twistCallback_first_query; try assumption. lia.
  - intros Hclear.
    destruct (twistCallback_clear rotation_quaternion poseEigenToMsg msg s robot_pose
                Hok Hpass Hpose) as [Htrace _].
    { intros j Hj. apply Hclear. lia. }
    eexists. split; [exact Htrace |]. split.
    + rewrite collision_queries_app.
      rewrite (collision_queries_queries rotation_quaternion s
                 (fun j => rollout_pose s msg robot_pose (S j))).
      cbn [collision_queries omap list_omap]. rewrite app_nil_r.
      now rewrite length_fmap, length_seq.
    + rewrite published_twists_app.
      rewrite (published_twists_queries rotation_quaternion s
                 (fun j => rollout_pose s msg robot_pose (S j))).
      reflexivity.
Qed.

(** A step count of [-1] in free space: the loop bound is [2^64 - 1]. *)
Lemma negative_horizon_wraps_witness :
  let s := located_node (mkConfig 0.5 (-1) false) free_scene in
  (p_roll_out_steps_ s < 0)%Z
  ∧ Z.of_nat (loop_bound s) = (2 ^ 64 - 1)%Z
  ∧ ∃ rest,
      trace (twistCallback upright_quaternion upright_pose_msg forward_cmd s)
      = trace s
        ++ pose_query upright_quaternion s (rollout_pose s forward_cmd origin_pose 1)
           :: rest.
Proof.
  intros s.
  assert (Hok : virtual_link_ok s) by (split; reflexivity).
  assert (Hneg : (p_roll_out_steps_ s < 0)%Z) by (cbn; lia).
  assert (Hint : is_int (p_roll_out_steps_ s)).
  { unfold is_int, INT_MIN, INT_MAX. cbn. lia. }
  destruct (negative_horizon_wraps upright_quaternion upright_pose_msg s forward_cmd
              origin_pose Hok Hint Hneg eq_refl eq_refl)
    as (_ & Hbound & _ & Hfirst & _).
  split; [exact Hneg |]. split; [| exact Hfirst].
  rewrite Hbound. change (p_roll_out_steps_ s) with (-1)%Z. lia.
Defined.

(** ** More on the motion predictor: headings and step lengths *)

Section RolloutGeometry.
Local Open Scope R_scope.

Lemma mat_mul_assoc (A B C : Eigen.Matrix3d) :
  Eigen.mat_mul (Eigen.mat_mul A B) C = Eigen.mat_mul A (Eigen.mat_mul B C).
Proof. unfold Eigen.mat_mul; cbn. f_equal; ring. Qed.

Lemma mat_mul_Identity_r (A : Eigen.Matrix3d) : Eigen.mat_mul A Eigen.Identity = A.
Proof. destruct A. unfold Eigen.mat_mul, Eigen.Identity; cbn. f_equal; ring. Qed.

(** Turning by [a] and then by [b] about the vertical axis is turning by
    [a + b]. *)
Lemma Rz_plus (a b : R) : Eigen.mat_mul (Rz a) (Rz b) = Rz (a + b).
Proof.
  unfold Eigen.mat_mul, Rz; cbn. rewrite cos_plus, sin_plus. f_equal; ring.
Qed.

Lemma integrateTwist_linear (msg : geometry_msgs.Twist) (step_time : R) :
  Eigen.linear (integrateTwist msg step_time) = Rz (Eigen.z (int_vec msg step_time)).
Proof. unfold integrateTwist. now rewrite rotation_mul_translation_UnitZ. Qed.

Lemma predicted_pose_linear (pose_change test_pose : Eigen.Affine3d) (theta : R) (j : nat) :
  Eigen.linear pose_change = Rz theta →
  Eigen.linear (predicted_pose pose_change test_pose j)
  = Eigen.mat_mul (Eigen.linear test_pose) (Rz (INR j * theta)).
Proof.
  intros Hchange. induction j as [| j IH].
  - cbn. rewrite Rmult_0_l, Rz_0. now rewrite mat_mul_Identity_r.
  - unfold predicted_pose in *. rewrite Nat.iter_succ. cbn [Eigen.mul Eigen.linear].
    rewrite IH, Hchange, mat_mul_assoc, Rz_plus, S_INR.
    f_equal. f_equal. ring.
Qed.

End RolloutGeometry.

(** X1.  The heading of the [j]-th predicted pose of a rollout is the
    heading of the robot pose turned [j] times by the heading change of
    one step: nothing for a command below the angular epsilon,
    [angular.z * step_time] otherwise. *)
Theorem rollout_heading_accumulates
    (s : NavCollisionChecker) (msg : geometry_msgs.Twist)
    (robot_pose : geometry_msgs.Pose) (j : nat) :
  let theta :=
    if Rlt_dec (Rabs (geometry_msgs.z (geometry_msgs.angular msg))) 0.0001
    then 0%R
    else (geometry_msgs.z (geometry_msgs.angular msg) * p_roll_out_step_time_ s)%R in
  Eigen.linear (rollout_pose s msg robot_pose j)
  = Eigen.mat_mul (Eigen.linear (poseMsgToEigen robot_pose)) (Rz (INR j * theta)).
Proof.
  intros theta. unfold rollout_pose.
  apply predicted_pose_linear. rewrite integrateTwist_linear.
  subst theta. unfold int_vec. now destruct (Rlt_dec _ _).
Qed.

(** X2.  A command below the angular epsilon is rolled out along the
    forward axis of the robot pose: the [j]-th predicted pose keeps the
    orientation of the robot pose and lies [j * linear.x * step_time]
    further along the first column of its rotation. *)
Theorem straight_rollout_advances
    (s : NavCollisionChecker) (msg : geometry_msgs.Twist)
    (robot_pose : geometry_msgs.Pose) (j : nat) :
  (Rabs (geometry_msgs.z (geometry_msgs.angular msg)) < 0.0001)%R →
  let start := poseMsgToEigen robot_pose in
  let L := Eigen.linear start in
  let d := (INR j * (geometry_msgs.x (geometry_msgs.linear msg)
                     * p_roll_out_step_time_ s))%R in
  rollout_pose s msg robot_pose j
  = Eigen.mkAffine3d L
      (Eigen.mkVector3d
         (Eigen.x (Eigen.translation start) + d * Eigen.m00 L)
         (Eigen.y (Eigen.translation start) + d * Eigen.m10 L)
         (Eigen.z (Eigen.translation start) + d * Eigen.m20 L)).
Proof.
  intros Hsmall start L d. subst d. unfold rollout_pose.
  assert (Hchange :
    integrateTwist msg (p_roll_out_step_time_ s)
    = Eigen.mkAffine3d Eigen.Identity
        (Eigen.mkVector3d
           (geometry_msgs.x (geometry_msgs.linear msg) * p_roll_out_step_time_ s) 0 0)).
  { unfold integrateTwist. rewrite rotation_mul_translation_UnitZ.
    rewrite (int_vec_straight _ _ Hsmall); cbn [Eigen.x Eigen.y Eigen.z].
    now rewrite Rz_0, mat_vec_Identity. }
  rewrite Hchange. fold start. subst L.
  destruct start as [L t]. cbn [Eigen.linear Eigen.translation].
  induction j as [| j IH].
  - cbn. destruct t. cbn. f_equal. f_equal; ring.
  - unfold predicted_pose in *. rewrite Nat.iter_succ, IH, S_INR.
    unfold Eigen.mul; cbn [Eigen.linear Eigen.translation].
    rewrite mat_mul_Identity_r. f_equal.
    unfold Eigen.mat_vec, Eigen.vec_add; cbn. f_equal; ring.
Qed.

(** A robot at the origin, not turned, driving straight: after four
    steps of half a second it is two metres ahead. *)
Lemma straight_rollout_advances_witness :
  let s := located_node (mkConfig 0.5 4 false) free_scene in
  (Rabs (geometry_msgs.z (geometry_msgs.angular forward_cmd)) < 0.0001)%R
  ∧ Eigen.x (Eigen.translation (rollout_pose s forward_cmd origin_pose 4)) = 2%R.
Proof.
  intros s.
  assert (Hsmall : (Rabs (geometry_msgs.z (geometry_msgs.angular forward_cmd)) < 0.0001)%R).
  { cbn. rewrite Rabs_R0. lra. }
  split; [exact Hsmall |].
  rewrite (straight_rollout_advances s forward_cmd origin_pose 4 Hsmall).
  cbn. lra.
Defined.

(** X3.  For a positive step time, the transform of one step does not
    leave the plane, and the length of its translation is the length of
    the motion: the distance [linear.x * step_time] for a straight step;
    for a turning step, whose angle is then not zero, the chord of the
    arc, [2 * radius^2 * (1 - cos angle)] when squared. *)
Theorem integrateTwist_step_length (msg : geometry_msgs.Twist) (step_time : R) :
  (0 < step_time)%R →
  let t := Eigen.translation (integrateTwist msg step_time) in
  let distance := (geometry_msgs.x (geometry_msgs.linear msg) * step_time)%R in
  let angle := (geometry_msgs.z (geometry_msgs.angular msg) * step_time)%R in
  let radius := (distance / angle)%R in
  Eigen.z t = 0%R
  ∧ ((Rabs (geometry_msgs.z (geometry_msgs.angular msg)) < 0.0001)%R →
     (Eigen.x t * Eigen.x t + Eigen.y t * Eigen.y t)%R = (distance * distance)%R)
  ∧ (¬ (Rabs (geometry_msgs.z (geometry_msgs.angular msg)) < 0.0001)%R →
     angle ≠ 0%R
     ∧ (Eigen.x t * Eigen.x t + Eigen.y t * Eigen.y t)%R
       = (2 * (radius * radius) * (1 - cos angle))%R).
Proof.
  intros Hpos t distance angle radius. subst t. unfold integrateTwist.
  rewrite rotation_mul_translation_UnitZ. unfold int_vec.
  destruct (Rlt_dec _ _) as [Hsmall | Hbig]; cbn [Eigen.x Eigen.y Eigen.z].
  - rewrite Rz_0, mat_vec_Identity. cbn. fold distance.
    split; [reflexivity |]. split; [intros _; ring | intros Hbig; contradiction].
  - fold distance. fold angle. fold radius.
    unfold Eigen.mat_vec, Rz; cbn. split; [ring |].
    split; [intros Hsmall; contradiction |]. intros _. split.
    + subst angle. intros H0.
      apply Rmult_integral in H0 as [H0 | H0]; [| lra].
      apply Hbig. rewrite H0, Rabs_R0. lra.
    + pose proof (sin2_cos2 angle) as Hunit. unfold Rsqr in Hunit.
      set (sn := sin angle) in *. set (cs := cos angle) in *.
      transitivity ((sn * sn + cs * cs)
                    * (radius * radius * ((sn * sn + cs * cs) + 1 - 2 * cs)))%R;
        [ring |].
      rewrite Hunit. ring.
Qed.

(** A turning step of one second at one metre and one radian per second:
    the chord of an arc of radius 1 and angle 1. *)
Lemma integrateTwist_step_length_witness :
  let msg := geometry_msgs.mkTwist (geometry_msgs.mkVector3 1 0 0)
                                   (geometry_msgs.mkVector3 0 0 1) in
  let t := Eigen.translation (integrateTwist msg 1) in
  (0 < 1)%R
  ∧ ¬ (Rabs (geometry_msgs.z (geometry_msgs.angular msg)) < 0.0001)%R
  ∧ (Eigen.x t * Eigen.x t + Eigen.y t * Eigen.y t)%R
    = (2 * (1 * 1 / (1 * 1) * (1 * 1 / (1 * 1))) * (1 - cos (1 * 1)))%R.
Proof.
  intros msg t.
  assert (Hpos : (0 < 1)%R) by lra.
  assert (Hbig : ¬ (Rabs (geometry_msgs.z (geometry_msgs.angular msg)) < 0.0001)%R).
  { cbn. rewrite Rabs_R1. lra. }
  split; [exact Hpos |]. split; [exact Hbig |].
  destruct (integrateTwist_step_length msg 1 Hpos) as (_ & _ & Harc).
  exact (proj2 (Harc Hbig)).
Defined.

(** ** Every way a command can go *)

Section CallbackOutcomes.

Variable rotation_quaternion : Eigen.Affine3d → Eigen.Quaterniond.
Variable poseEigenToMsg : Eigen.Affine3d → geometry_msgs.Pose.

(** A bounded search either finds a first hit or finds none. *)
Lemma first_hit_or_clear (f : nat → bool) (n : nat) :
  (∀ j, (j < n)%nat → f j = false)
  ∨ ∃ k, (k < n)%nat ∧ f k = true ∧ ∀ j, (j < k)%nat → f j = false.
Proof.
  induction n as [| n IH].
  - left. intros j Hj. lia.
  - destruct IH as [Hclear | (k & Hk & Hhit & Hbefore)].
    + destruct (f n) eqn:Hn.
      * right. exists n. split; [lia |]. split; [exact Hn | exact Hclear].
      * left. intros j Hj.
        destruct (decide (j = n)) as [-> | Hne]; [exact Hn | apply Hclear; lia].
    + right. exists k. split; [lia |]. split; assumption.
Qed.

Lemma rollout_pose_same_setup (s s' : NavCollisionChecker) (msg : geometry_msgs.Twist)
    (robot_pose : geometry_msgs.Pose) (j : nat) :
  same_setup s s' → rollout_pose s' msg robot_pose j = rollout_pose s msg robot_pose j.
Proof. intros (_ & _ & Htime & _). unfold rollout_pose. now rewrite Htime. Qed.

Lemma loop_bound_same_setup (s s' : NavCollisionChecker) :
  same_setup s s' → loop_bound s' = loop_bound s.
Proof. intros (_ & _ & _ & Hsteps & _). unfold loop_bound. now rewrite Hsteps. Qed.

Lemma twistCallback_same_setup (msg : geometry_msgs.Twist) (s : NavCollisionChecker) :
  virtual_link_ok s →
  same_setup s (twistCallback rotation_quaternion poseEigenToMsg msg s).
Proof.
  intros Hok. unfold twistCallback.
  destruct (p_pass_through_ s); [repeat split; reflexivity |].
  destruct (robot_pose_ptr_ s) as [robot_pose |]; [| repeat split; reflexivity].
  pose proof (roll_out_keeps rotation_quaternion poseEigenToMsg msg
                (integrateTwist msg (p_roll_out_step_time_ s))
                (loop_bound s) 0 (poseMsgToEigen robot_pose)
                (set_marker_array_ [] s) Hok) as [_ Hsame].
  destruct (roll_out _ _ _ _ _ _ _ _) as [[] s']; cbn [snd] in *; exact Hsame.
Qed.

(** A rollout either runs clear through all its steps or is blocked at a
    first colliding step; the trace and the markers in both cases. *)
Lemma twistCallback_cases (msg : geometry_msgs.Twist) (s : NavCollisionChecker)
    (robot_pose : geometry_msgs.Pose) :
  virtual_link_ok s →
  p_pass_through_ s = false →
  robot_pose_ptr_ s = Some robot_pose →
  let s' := twistCallback rotation_quaternion poseEigenToMsg msg s in
  let pose j := rollout_pose s msg robot_pose j in
  ((∀ j, (j < loop_bound s)%nat →
      (isInCollision rotation_quaternion (pose (S j)) s).1 = false)
   ∧ trace s'
     = trace s
       ++ ((fun j => pose_query rotation_quaternion s (pose (S j)))
           <$> seq 0 (loop_bound s))
       ++ [marker_pub (marker_array_ s'); safe_twist_pub msg]
   ∧ marker_array_ s'
     = (fun j => rollout_marker poseEigenToMsg (pose (S j)) j) <$> seq 0 (loop_bound s))
  ∨ ∃ k,
      (k < loop_bound s)%nat
      ∧ (isInCollision rotation_quaternion (pose (S k)) s).1 = true
      ∧ (∀ j, (j < k)%nat →
           (isInCollision rotation_quaternion (pose (S j)) s).1 = false)
      ∧ trace s'
        = trace s
          ++ ((fun j => pose_query rotation_quaternion s (pose (S j))) <$> seq 0 (S k))
          ++ collision_report (pose (S k)) (rotation_quaternion (pose (S k))) s
          ++ [safe_twist_pub (stop msg); marker_pub (marker_array_ s')]
      ∧ marker_array_ s'
        = (fun j => rollout_marker poseEigenToMsg (pose (S j)) j) <$> seq 0 (S k).
Proof.
  intros Hok Hpass Hpose s' pose.
  destruct (first_hit_or_clear
              (fun j => (isInCollision rotation_quaternion (pose (S j)) s).1)
              (loop_bound s)) as [Hclear | (k & Hk & Hhit & Hbefore)].
  - left. split; [exact Hclear |].
    exact (twistCallback_clear rotation_quaternion poseEigenToMsg msg s robot_pose
             Hok Hpass Hpose Hclear).
  - right. exists k. split; [exact Hk |]. split; [exact Hhit |].
    split; [exact Hbefore |].
    exact (twistCallback_blocked rotation_quaternion poseEigenToMsg msg s robot_pose k
             Hok Hpass Hpose Hk Hbefore Hhit).
Qed.

Lemma warnings_app (l1 l2 : list Event) :
  warnings (l1 ++ l2) = warnings l1 ++ warnings l2.
Proof. apply omap_app. Qed.

Lemma collision_states_app (l1 l2 : list Event) :
  collision_states (l1 ++ l2) = collision_states l1 ++ collision_states l2.
Proof. apply omap_app. Qed.

Lemma quiet_queries (s : NavCollisionChecker) (f : nat → Eigen.Affine3d) (l : list nat) :
  warnings ((fun j => pose_query rotation_quaternion s (f j)) <$> l) = []
  ∧ collision_states ((fun j => pose_query rotation_quaternion s (f j)) <$> l) = [].
Proof. induction l as [| j l IH]; [split; reflexivity | exact IH]. Qed.

Lemma collision_report_warnings (pose : Eigen.Affine3d) (q : Eigen.Quaterniond)
    (s : NavCollisionChecker) :
  warnings (collision_report pose q s) = [].
Proof. unfold collision_report. now destruct (decide _). Qed.

Lemma collision_report_states (pose : Eigen.Affine3d) (q : Eigen.Quaterniond)
    (s : NavCollisionChecker) :
  collision_states (collision_report pose q s)
  = if decide (0 < collision_state_subscribers s)%nat
    then [candidate_state pose q (robot_state_ s)] else [].
Proof. unfold collision_report. now destruct (decide _). Qed.

(** What the projections of the two rollout traces are. *)
Lemma clear_trace_views (s : NavCollisionChecker) (f : nat → Eigen.Affine3d) (n : nat)
    (markers : list visualization_msgs.Marker) (msg : geometry_msgs.Twist) :
  let new := ((fun j => pose_query rotation_quaternion s (f j)) <$> seq 0 n)
             ++ [marker_pub markers; safe_twist_pub msg] in
  published_twists new = [msg]
  ∧ collision_queries new
    = (fun j => candidate_state (f j) (rotation_quaternion (f j)) (robot_state_ s))
      <$> seq 0 n
  ∧ published_markers new = [markers]
  ∧ warnings new = []
  ∧ collision_states new = [].
Proof.
  intros new. subst new.
  rewrite published_twists_app, collision_queries_app, published_markers_app,
    warnings_app, collision_states_app.
  rewrite published_twists_queries, collision_queries_queries, published_markers_queries.
  destruct (quiet_queries s f (seq 0 n)) as [-> ->].
  cbn. rewrite app_nil_r. repeat split.
Qed.

Lemma blocked_trace_views (s : NavCollisionChecker) (f : nat → Eigen.Affine3d) (n : nat)
    (pose : Eigen.Affine3d) (q : Eigen.Quaterniond)
    (markers : list visualization_msgs.Marker) (twist : geometry_msgs.Twist) :
  let new := ((fun j => pose_query rotation_quaternion s (f j)) <$> seq 0 n)
             ++ collision_report pose q s
             ++ [safe_twist_pub twist; marker_pub markers] in
  published_twists new = [twist]
  ∧ collision_queries new
    = (fun j => candidate_state (f j) (rotation_quaternion (f j)) (robot_state_ s))
      <$> seq 0 n
  ∧ published_markers new = [markers]
  ∧ warnings new = []
  ∧ collision_states new
    = if decide (0 < collision_state_subscribers s)%nat
      then [candidate_state pose q (robot_state_ s)] else [].
Proof.
  intros new. subst new.
  rewrite !published_twists_app, !collision_queries_app, !published_markers_app,
    !warnings_app, !collision_states_app.
  rewrite published_twists_queries, collision_queries_queries, published_markers_queries.
  destruct (quiet_queries s f (seq 0 n)) as [-> ->].
  destruct (collision_report_quiet pose q s) as (-> & -> & ->).
  rewrite collision_report_warnings, collision_report_states.
  cbn. rewrite !app_nil_r. repeat split.
Qed.

End CallbackOutcomes.

(** X4.  Whatever the configuration, the pose and the scene, a command
    is answered by exactly one published command, which is either the
    command itself or the zero command; at most one marker array is
    published, and the scene is asked at most as many times as the loop
    bound says. *)
Theorem twistCallback_single_command
    (rotation_quaternion : Eigen.Affine3d → Eigen.Quaterniond)
    (poseEigenToMsg : Eigen.Affine3d → geometry_msgs.Pose)
    (s : NavCollisionChecker) (msg : geometry_msgs.Twist) :
  virtual_link_ok s →
  let s' := twistCallback rotation_quaternion poseEigenToMsg msg s in
  ∃ new,
    trace s' = trace s ++ new
    ∧ (published_twists new = [msg] ∨ published_twists new = [zero_twist])
    ∧ (length (published_markers new) ≤ 1)%nat
    ∧ (length (collision_queries new) ≤ loop_bound s)%nat.
Proof.
  intros Hok s'.
  destruct (p_pass_through_ s) eqn:Hpass.
  { exists [safe_twist_pub msg]. subst s'. unfold twistCallback. rewrite Hpass.
    cbn. repeat split; [now left | lia | lia]. }
  destruct (robot_pose_ptr_ s) as [robot_pose |] eqn:Hpose.
  2:{ exists [ROS_WARN_THROTTLE 3 pose_warning; safe_twist_pub msg].
      subst s'. unfold twistCallback. rewrite Hpass, Hpose. cbn [trace emit].
      rewrite <- app_assoc. cbn. repeat split; [now left | lia | lia]. }
  destruct (twistCallback_cases rotation_quaternion poseEigenToMsg msg s robot_pose
              Hok Hpass Hpose)
    as [(_ & Htrace & _) | (k & Hk & _ & _ & Htrace & _)];
    fold s' in Htrace; (eexists; split; [exact Htrace |]).
  - destruct (clear_trace_views rotation_quaternion s
                (fun j => rollout_pose s msg robot_pose (S j)) (loop_bound s)
                (marker_array_ s') msg) as (-> & -> & -> & _).
    rewrite length_fmap, length_seq. cbn. repeat split; [now left | lia | lia].
  - destruct (blocked_trace_views rotation_quaternion s
                (fun j => rollout_pose s msg robot_pose (S j)) (S k)
                (rollout_pose s msg robot_pose (S k))
                (rotation_quaternion (rollout_pose s msg robot_pose (S k)))
                (marker_array_ s') (stop msg)) as (-> & -> & -> & _).
    rewrite length_fmap, length_seq. cbn. repeat split; [now right | lia | lia].
Qed.

(** A command driven into a wall: one command comes out. *)
Lemma twistCallback_single_command_witness :
  let s := located_node (mkConfig 0.5 10 false) (wall_scene 1.25) in
  virtual_link_ok s
  ∧ ∃ new,
      trace (twistCallback upright_quaternion upright_pose_msg forward_cmd s)
      = trace s ++ new
      ∧ length (published_twists new) = 1%nat.
Proof.
  intros s.
  assert (Hok : virtual_link_ok s) by (split; reflexivity).
  split; [exact Hok |].
  destruct (twistCallback_single_command upright_quaternion upright_pose_msg s
              forward_cmd Hok) as (new & Htrace & Htwists & _).
  exists new. split; [exact Htrace |].
  destruct Htwists as [-> | ->]; reflexivity.
Defined.

(** X5.  In a rollout, a command that is not already the zero command is
    replaced by the zero command exactly when the collision check
    reports a collision for the predicted pose of some step within the
    loop bound: the filter never stops the robot without such a
    report. *)
Theorem zero_command_needs_collision
    (rotation_quaternion : Eigen.Affine3d → Eigen.Quaterniond)
    (poseEigenToMsg : Eigen.Affine3d → geometry_msgs.Pose)
    (s : NavCollisionChecker) (msg : geometry_msgs.Twist)
    (robot_pose : geometry_msgs.Pose) :
  virtual_link_ok s →
  p_pass_through_ s = false →
  robot_pose_ptr_ s = Some robot_pose →
  msg ≠ zero_twist →
  let s' := twistCallback rotation_quaternion poseEigenToMsg msg s in
  ∃ new,
    trace s' = trace s ++ new
    ∧ (published_twists new = [zero_twist]
       ↔ ∃ k, (1 ≤ k ≤ loop_bound s)%nat
              ∧ (isInCollision rotation_quaternion
                   (rollout_pose s msg robot_pose k) s).1 = true).
Proof.
  intros Hok Hpass Hpose Hmsg s'.
  destruct (twistCallback_cases rotation_quaternion poseEigenToMsg msg s robot_pose
              Hok Hpass Hpose)
    as [(Hclear & Htrace & _) | (k & Hk & Hhit & _ & Htrace & _)];
    fold s' in Htrace; (eexists; split; [exact Htrace |]).
  - destruct (clear_trace_views rotation_quaternion s
                (fun j => rollout_pose s msg robot_pose (S j)) (loop_bound s)
                (marker_array_ s') msg) as (-> & _).
    split.
    + intros Heq. injection Heq as Heq. contradiction.
    + intros (k & Hk & Hhit). destruct k as [| k]; [lia |].
      rewrite Hclear in Hhit by lia. discriminate.
  - destruct (blocked_trace_views rotation_quaternion s
                (fun j => rollout_pose s msg robot_pose (S j)) (S k)
                (rollout_pose s msg robot_pose (S k))
                (rotation_quaternion (rollout_pose s msg robot_pose (S k)))
                (marker_array_ s') (stop msg)) as (-> & _).
    split.
    + intros _. exists (S k). split; [lia | exact Hhit].
    + intros _. reflexivity.
Qed.

(** Free space: the forward command is not replaced, and no step
    collides. *)
Lemma zero_command_needs_collision_witness :
  let s := located_node (mkConfig 0.5 4 false) free_scene in
  forward_cmd ≠ zero_twist
  ∧ ∃ new,
      trace (twistCallback upright_quaternion upright_pose_msg forward_cmd s)
      = trace s ++ new
      ∧ published_twists new ≠ [zero_twist].
Proof.
  intros s.
  assert (Hok : virtual_link_ok s) by (split; reflexivity).
  assert (Hmsg : forward_cmd ≠ zero_twist).
  { intros Heq. injection Heq as Hx. lra. }
  split; [exact Hmsg |].
  destruct (zero_command_needs_collision upright_quaternion upright_pose_msg s
              forward_cmd origin_pose Hok eq_refl eq_refl Hmsg) as (new & Htrace & Hiff).
  exists new. split; [exact Htrace |].
  intros Hzero. apply Hiff in Hzero as (k & _ & Hhit).
  rewrite (free_verdict upright_quaternion _ s Hok eq_refl) in Hhit. discriminate.
Defined.

Lemma int_of_size_t_small (n : Z) :
  (0 ≤ n ≤ INT_MAX)%Z → int_of_size_t n = n.
Proof.
  unfold INT_MAX, int_of_size_t. intros Hn.
  rewrite Z.mod_small by lia. lia.
Qed.

(** X6.  With a step count that is not negative, the marker array a
    rollout publishes is the one the node holds afterwards; it holds one
    arrow per collision query of this command and nothing of earlier
    commands, the arrow of step [j] carries the pose of step [j] and the
    id [j - 1], so that no two arrows share an id. *)
Theorem rollout_markers_follow_queries
    (rotation_quaternion : Eigen.Affine3d → Eigen.Quaterniond)
    (poseEigenToMsg : Eigen.Affine3d → geometry_msgs.Pose)
    (s : NavCollisionChecker) (msg : geometry_msgs.Twist)
    (robot_pose : geometry_msgs.Pose) :
  virtual_link_ok s →
  is_int (p_roll_out_steps_ s) →
  (0 ≤ p_roll_out_steps_ s)%Z →
  p_pass_through_ s = false →
  robot_pose_ptr_ s = Some robot_pose →
  let s' := twistCallback rotation_quaternion poseEigenToMsg msg s in
  ∃ new,
    trace s' = trace s ++ new
    ∧ published_markers new = [marker_array_ s']
    ∧ length (marker_array_ s') = length (collision_queries new)
    ∧ ∀ j m,
        marker_array_ s' !! j = Some m →
        visualization_msgs.id m = Z.of_nat j
        ∧ visualization_msgs.pose m
          = poseEigenToMsg (rollout_pose s msg robot_pose (S j))
        ∧ visualization_msgs.frame_id m = "world".
Proof.
  intros Hok Hint Hpos Hpass Hpose s'.
  pose proof (loop_bound_nonneg s Hint Hpos) as Hbound.
  assert (Hmarker : ∀ n j m,
            (n ≤ loop_bound s)%nat →
            ((fun j => rollout_marker poseEigenToMsg
                         (rollout_pose s msg robot_pose (S j)) j) <$> seq 0 n) !! j
            = Some m →
            visualization_msgs.id m = Z.of_nat j
            ∧ visualization_msgs.pose m
              = poseEigenToMsg (rollout_pose s msg robot_pose (S j))
            ∧ visualization_msgs.frame_id m = "world").
  { intros n j m Hn Hm. rewrite list_lookup_fmap in Hm.
    destruct (seq 0 n !! j) as [i |] eqn:Hi; [| discriminate Hm].
    apply lookup_seq in Hi as [-> Hj]. cbn in Hm. injection Hm as <-.
    cbn. repeat split.
    apply int_of_size_t_small. unfold is_int in Hint. lia. }
  destruct (twistCallback_cases rotation_quaternion poseEigenToMsg msg s robot_pose
              Hok Hpass Hpose)
    as [(_ & Htrace & Hmarkers) | (k & Hk & _ & _ & Htrace & Hmarkers)];
    fold s' in Htrace, Hmarkers; (eexists; split; [exact Htrace |]).
  - destruct (clear_trace_views rotation_quaternion s
                (fun j => rollout_pose s msg robot_pose (S j)) (loop_bound s)
                (marker_array_ s') msg) as (_ & -> & -> & _).
    split; [reflexivity |]. split.
    + rewrite Hmarkers. now rewrite !length_fmap.
    + intros j m Hm. rewrite Hmarkers in Hm.
      apply (Hmarker (loop_bound s)); [lia | exact Hm].
  - destruct (blocked_trace_views rotation_quaternion s
                (fun j => rollout_pose s msg robot_pose (S j)) (S k)
                (rollout_pose s msg robot_pose (S k))
                (rotation_quaternion (rollout_pose s msg robot_pose (S k)))
                (marker_array_ s') (stop msg)) as (_ & -> & -> & _).
    split; [reflexivity |]. split.
    + rewrite Hmarkers. now rewrite !length_fmap.
    + intros j m Hm. rewrite Hmarkers in Hm.
      apply (Hmarker (S k)); [lia | exact Hm].
Qed.

(** Towards the wall: the markers published are the three of this
    command. *)
Lemma rollout_markers_follow_queries_witness :
  let s := located_node (mkConfig 0.5 10 false) (wall_scene 1.25) in
  (0 ≤ p_roll_out_steps_ s)%Z
  ∧ ∃ new,
      trace (twistCallback upright_quaternion upright_pose_msg forward_cmd s)
      = trace s ++ new
      ∧ length (marker_array_
                  (twistCallback upright_quaternion upright_pose_msg forward_cmd s))
        = length (collision_queries new).
Proof.
  intros s.
  assert (Hok : virtual_link_ok s) by (split; reflexivity).
  assert (Hint : is_int (p_roll_out_steps_ s)).
  { unfold is_int, INT_MIN, INT_MAX. cbn. lia. }
  assert (Hpos : (0 ≤ p_roll_out_steps_ s)%Z) by (cbn; lia).
  split; [exact Hpos |].
  destruct (rollout_markers_follow_queries upright_quaternion upright_pose_msg s
              forward_cmd origin_pose Hok Hint Hpos eq_refl eq_refl)
    as (new & Htrace & _ & Hlen & _).
  exists new. split; assumption.
Defined.

(** X7.  A command never changes what the filter was told: the step
    time, the step count, the pass-through flag, the robot pose and the
    planning scene are the same after the callback, the virtual-link
    message still has its seven names and seven positions, and every
    variable of the robot state other than the seven of the virtual link
    has the value it had. *)
Theorem twistCallback_frame
    (rotation_quaternion : Eigen.Affine3d → Eigen.Quaterniond)
    (poseEigenToMsg : Eigen.Affine3d → geometry_msgs.Pose)
    (s : NavCollisionChecker) (msg : geometry_msgs.Twist) :
  virtual_link_ok s →
  let s' := twistCallback rotation_quaternion poseEigenToMsg msg s in
  p_roll_out_step_time_ s' = p_roll_out_step_time_ s
  ∧ p_roll_out_steps_ s' = p_roll_out_steps_ s
  ∧ p_pass_through_ s' = p_pass_through_ s
  ∧ robot_pose_ptr_ s' = robot_pose_ptr_ s
  ∧ planning_scene_ s' = planning_scene_ s
  ∧ virtual_link_ok s'
  ∧ ∀ k, k ∉ virtual_link_names → robot_state_ s' !! k = robot_state_ s !! k.
Proof.
  intros Hok s'.
  destruct (twistCallback_same_setup rotation_quaternion poseEigenToMsg msg s Hok)
    as (Hscene & Hpose & Htime & Hsteps & Hpass & _ & Hstate).
  fold s' in Hscene, Hpose, Htime, Hsteps, Hpass, Hstate.
  split; [exact Htime |]. split; [exact Hsteps |]. split; [exact Hpass |].
  split; [exact Hpose |]. split; [exact Hscene |]. split.
  - apply (twistCallback_keeps rotation_quaternion poseEigenToMsg msg s Hok).
  - intros k Hk.
    pose proof (Hstate (poseMsgToEigen origin_pose)
                  (upright_quaternion (poseMsgToEigen origin_pose))) as Heq.
    apply (f_equal (fun m => m !! k)) in Heq. unfold candidate_state in Heq.
    now rewrite !setVariablePositions_other in Heq by exact Hk.
Qed.

(** After a command that ran into the wall the robot state still has no
    value for a joint nobody set, and the configuration is the same. *)
Lemma twistCallback_frame_witness :
  let s := located_node (mkConfig 0.5 10 false) (wall_scene 1.25) in
  let s' := twistCallback upright_quaternion upright_pose_msg forward_cmd s in
  virtual_link_ok s
  ∧ p_roll_out_steps_ s' = 10%Z
  ∧ robot_state_ s' !! "arm_joint_0" = None.
Proof.
  intros s s'.
  assert (Hok : virtual_link_ok s) by (split; reflexivity).
  destruct (twistCallback_frame upright_quaternion upright_pose_msg s forward_cmd Hok)
    as (_ & Hsteps & _ & _ & _ & _ & Hother).
  split; [exact Hok |]. split; [exact Hsteps |].
  fold s' in Hother. rewrite Hother; [reflexivity |].
  unfold virtual_link_names.
  rewrite !not_elem_of_cons. repeat split; try discriminate.
  apply not_elem_of_nil.
Defined.

(** X8.  Sending the same command twice, with no other message in
    between, makes the filter do the same twice: the same queries in the
    same order, the same verdict, the same published command and
    markers.  What the first rollout leaves in the virtual link and in
    the marker array does not show in the second. *)
Theorem twistCallback_repeatable
    (rotation_quaternion : Eigen.Affine3d → Eigen.Quaterniond)
    (poseEigenToMsg : Eigen.Affine3d → geometry_msgs.Pose)
    (s : NavCollisionChecker) (msg : geometry_msgs.Twist) :
  virtual_link_ok s →
  let s1 := twistCallback rotation_quaternion poseEigenToMsg msg s in
  let s2 := twistCallback rotation_quaternion poseEigenToMsg msg s1 in
  ∃ new, trace s1 = trace s ++ new ∧ trace s2 = trace s1 ++ new.
Proof.
  intros Hok s1 s2.
  pose proof (twistCallback_same_setup rotation_quaternion poseEigenToMsg msg s Hok)
    as Hsame.
  pose proof (proj1 (twistCallback_keeps rotation_quaternion poseEigenToMsg msg s Hok))
    as Hok1.
  fold s1 in Hsame, Hok1.
  assert (Hpass1 : p_pass_through_ s1 = p_pass_through_ s) by apply Hsame.
  assert (Hpose1 : robot_pose_ptr_ s1 = robot_pose_ptr_ s) by apply Hsame.
  destruct (p_pass_through_ s) eqn:Hpass.
  { exists [safe_twist_pub msg]. split.
    - subst s1. unfold twistCallback. now rewrite Hpass.
    - subst s2. unfold twistCallback at 1. now rewrite Hpass1. }
  destruct (robot_pose_ptr_ s) as [robot_pose |] eqn:Hpose.
  2:{ exists [ROS_WARN_THROTTLE 3 pose_warning; safe_twist_pub msg]. split.
      - subst s1. unfold twistCallback. rewrite Hpass, Hpose. cbn [trace emit].
        now rewrite <- app_assoc.
      - subst s2. unfold twistCallback at 1. rewrite Hpass1, Hpose1. cbn [trace emit].
        now rewrite <- app_assoc. }
  assert (Hqueries : ∀ n,
            (fun j => pose_query rotation_quaternion s1
                        (rollout_pose s1 msg robot_pose (S j))) <$> seq 0 n
            = (fun j => pose_query rotation_quaternion s
                          (rollout_pose s msg robot_pose (S j))) <$> seq 0 n).
  { intros n. apply list_fmap_ext. intros ? j _.
    rewrite (rollout_pose_same_setup _ _ _ _ _ Hsame).
    apply (pose_query_same_setup _ _ _ _ Hsame). }
  assert (Hmarks : ∀ n,
            (fun j => rollout_marker poseEigenToMsg
                        (rollout_pose s1 msg robot_pose (S j)) j) <$> seq 0 n
            = (fun j => rollout_marker poseEigenToMsg
                          (rollout_pose s msg robot_pose (S j)) j) <$> seq 0 n).
  { intros n. apply list_fmap_ext. intros ? j _.
    now rewrite (rollout_pose_same_setup _ _ _ _ _ Hsame). }
  assert (Hverdict : ∀ j,
            (isInCollision rotation_quaternion (rollout_pose s1 msg robot_pose j) s1).1
            = (isInCollision rotation_quaternion (rollout_pose s msg robot_pose j) s).1).
  { intros j. rewrite (rollout_pose_same_setup _ _ _ _ _ Hsame).
    apply (verdict_same_setup _ _ _ _ Hok Hok1 Hsame). }
  pose proof (loop_bound_same_setup _ _ Hsame) as Hbound.
  destruct (twistCallback_cases rotation_quaternion poseEigenToMsg msg s robot_pose
              Hok Hpass Hpose)
    as [(Hclear & Htrace & Hmarkers) | (k & Hk & Hhit & Hbefore & Htrace & Hmarkers)];
    fold s1 in Htrace, Hmarkers; (eexists; split; [exact Htrace |]).
  - destruct (twistCallback_clear rotation_quaternion poseEigenToMsg msg s1 robot_pose
                Hok1 Hpass1 Hpose1) as [Htrace2 Hmarkers2].
    { intros j Hj. rewrite Hverdict. apply Hclear. lia. }
    fold s2 in Htrace2, Hmarkers2.
    rewrite Htrace2, Hmarkers2, Hbound, Hqueries, Hmarks, <- Hmarkers. reflexivity.
  - destruct (twistCallback_blocked rotation_quaternion poseEigenToMsg msg s1 robot_pose k
                Hok1 Hpass1 Hpose1) as [Htrace2 Hmarkers2].
    { lia. }
    { intros j Hj. rewrite Hverdict. now apply Hbefore. }
    { now rewrite Hverdict. }
    fold s2 in Htrace2, Hmarkers2.
    rewrite Htrace2, Hmarkers2, Hqueries, Hmarks, <- Hmarkers.
    rewrite (rollout_pose_same_setup _ _ _ _ _ Hsame).
    rewrite (collision_report_same_setup _ _ _ _ Hsame). reflexivity.
Qed.

(** The command towards the wall, sent twice. *)
Lemma twistCallback_repeatable_witness :
  let s := located_node (mkConfig 0.5 10 false) (wall_scene 1.25) in
  let s1 := twistCallback upright_quaternion upright_pose_msg forward_cmd s in
  let s2 := twistCallback upright_quaternion upright_pose_msg forward_cmd s1 in
  virtual_link_ok s
  ∧ ∃ new, trace s1 = trace s ++ new ∧ trace s2 = trace s1 ++ new.
Proof.
  intros s s1 s2.
  assert (Hok : virtual_link_ok s) by (split; reflexivity).
  split; [exact Hok |].
  exact (twistCallback_repeatable upright_quaternion upright_pose_msg s forward_cmd Hok).
Defined.

(** X9.  In every state the node can reach from its constructor through
    its callbacks, the virtual-link message has the seven names and
    seven positions the constructor gave it and the step count is an
    [int]: the seven indexed writes of the collision check always land
    inside the array, and the check leaves exactly seven positions. *)
Theorem reachable_virtual_link_in_bounds
    (rotation_quaternion : Eigen.Affine3d → Eigen.Quaterniond)
    (poseEigenToMsg : Eigen.Affine3d → geometry_msgs.Pose)
    (Octomap : Type)
    (processOctomapMsg : Octomap → moveit.PlanningScene → moveit.PlanningScene)
    (s : NavCollisionChecker) (pose : Eigen.Affine3d) :
  reachable rotation_quaternion poseEigenToMsg Octomap processOctomapMsg s →
  sensor_msgs.name (virtual_link_joint_states_ s) = virtual_link_names
  ∧ length (sensor_msgs.position (virtual_link_joint_states_ s)) = 7%nat
  ∧ is_int (p_roll_out_steps_ s)
  ∧ (∀ i, (i < 7)%nat →
       is_Some (sensor_msgs.position (virtual_link_joint_states_ s) !! i))
  ∧ length (sensor_msgs.position
              (virtual_link_joint_states_ (isInCollision rotation_quaternion pose s).2))
    = 7%nat.
Proof.
  intros Hreach.
  destruct (reachable_ok _ _ _ _ s Hreach) as [Hok Hint].
  destruct Hok as [Hnames Hlen].
  split; [exact Hnames |]. split; [exact Hlen |]. split; [exact Hint |]. split.
  - intros i Hi. apply lookup_lt_is_Some. lia.
  - rewrite (isInCollision_eq _ _ _ (conj Hnames Hlen)).
    destruct (moveit.collision _); cbn [snd]; [| reflexivity].
    unfold collided_node. now destruct (decide _).
Qed.

(** A node that was constructed, got a pose, a joint-state message and a
    new configuration, and rolled out a command. *)
Lemma reachable_virtual_link_in_bounds_witness :
  let s :=
    twistCallback upright_quaternion upright_pose_msg forward_cmd
      (dynRecParamCallback (mkConfig 0.25 3 false)
         (jointStatesCallback (sensor_msgs.mkJointState ["arm_joint_0"] [0.5%R])
            (robotPoseCallback origin_pose
               (NavCollisionChecker_new (mkConfig 0.5 10 false) ∅ blocked_scene 1)))) in
  length (sensor_msgs.position (virtual_link_joint_states_ s)) = 7%nat.
Proof.
  intros s.
  assert (Hint : ∀ n, (0 ≤ n ≤ 10)%Z → is_int n).
  { intros n Hn. unfold is_int, INT_MIN, INT_MAX. lia. }
  assert (Hreach : reachable upright_quaternion upright_pose_msg unit (fun _ scene => scene) s).
  { apply reach_twist, reach_dyn_rec; [apply Hint; cbn; lia |].
    apply reach_joint_states, reach_robot_pose, reach_new. apply Hint. cbn. lia. }
  exact (proj1 (proj2 (reachable_virtual_link_in_bounds
                         upright_quaternion upright_pose_msg unit (fun _ scene => scene)
                         s (poseMsgToEigen origin_pose) Hreach))).
Defined.

(** X10.  The colliding robot state is published for display at most
    once per command.  A rollout publishes it when, and only when, a
    step reports a collision and somebody is subscribed; what is
    published is then the robot state of the last query put to the
    scene, and the command published is the stopped one. *)
Theorem collision_state_is_last_query
    (rotation_quaternion : Eigen.Affine3d → Eigen.Quaterniond)
    (poseEigenToMsg : Eigen.Affine3d → geometry_msgs.Pose)
    (s : NavCollisionChecker) (msg : geometry_msgs.Twist)
    (robot_pose : geometry_msgs.Pose) :
  virtual_link_ok s →
  p_pass_through_ s = false →
  robot_pose_ptr_ s = Some robot_pose →
  let s' := twistCallback rotation_quaternion poseEigenToMsg msg s in
  ∃ new,
    trace s' = trace s ++ new
    ∧ (collision_states new = []
       ∨ ∃ state,
           collision_states new = [state]
           ∧ last (collision_queries new) = Some state
           ∧ published_twists new = [stop msg])
    ∧ (collision_states new ≠ []
       ↔ (0 < collision_state_subscribers s)%nat
         ∧ ∃ k, (1 ≤ k ≤ loop_bound s)%nat
                ∧ (isInCollision rotation_quaternion
                     (rollout_pose s msg robot_pose k) s).1 = true).
Proof.
  intros Hok Hpass Hpose s'.
  destruct (twistCallback_cases rotation_quaternion poseEigenToMsg msg s robot_pose
              Hok Hpass Hpose)
    as [(Hclear & Htrace & _) | (k & Hk & Hhit & _ & Htrace & _)];
    fold s' in Htrace; (eexists; split; [exact Htrace |]).
  - destruct (clear_trace_views rotation_quaternion s
                (fun j => rollout_pose s msg robot_pose (S j)) (loop_bound s)
                (marker_array_ s') msg) as (_ & _ & _ & _ & ->).
    split; [now left |]. split; [intros H; now contradiction H |].
    intros (_ & j & Hj & Hhit). destruct j as [| j]; [lia |].
    rewrite Hclear in Hhit by lia. discriminate.
  - destruct (blocked_trace_views rotation_quaternion s
                (fun j => rollout_pose s msg robot_pose (S j)) (S k)
                (rollout_pose s msg robot_pose (S k))
                (rotation_quaternion (rollout_pose s msg robot_pose (S k)))
                (marker_array_ s') (stop msg)) as (-> & -> & _ & _ & ->).
    destruct (decide (0 < collision_state_subscribers s)%nat) as [Hsub | Hsub].
    + split.
      * right. eexists. split; [reflexivity |]. split; [| reflexivity].
        rewrite seq_S, fmap_app. cbn. apply last_snoc.
      * split; [| discriminate].
        intros _. split; [exact Hsub |]. exists (S k). split; [lia | exact Hhit].
    + split; [now left |]. split; [intros H; now contradiction H |].
      intros [Hpos _]. contradiction.
Qed.

(** A robot that collides wherever it is, watched by one subscriber. *)
Lemma collision_state_is_last_query_witness :
  let s := robotPoseCallback origin_pose
             (NavCollisionChecker_new (mkConfig 0.5 10 false) ∅ blocked_scene 1) in
  virtual_link_ok s
  ∧ ∃ new,
      trace (twistCallback upright_quaternion upright_pose_msg forward_cmd s)
      = trace s ++ new
      ∧ collision_states new ≠ [].
Proof.
  intros s.
  assert (Hok : virtual_link_ok s) by (split; reflexivity).
  split; [exact Hok |].
  destruct (collision_state_is_last_query upright_quaternion upright_pose_msg s
              forward_cmd origin_pose Hok eq_refl eq_refl) as (new & Htrace & _ & Hiff).
  exists new. split; [exact Htrace |].
  apply Hiff. split; [cbn; lia |].
  exists 1%nat. split.
  - change (loop_bound s) with 10%nat. lia.
  - exact (blocked_verdict upright_quaternion _ s Hok eq_refl).
Defined.

(** X11.  The throttled warning about the missing pose is reported for a
    command exactly when the pass-through flag is not set and no pose
    has been received; once a pose is there, or with the flag set, a
    command is never answered with a warning. *)
Theorem warning_only_without_pose
    (rotation_quaternion : Eigen.Affine3d → Eigen.Quaterniond)
    (poseEigenToMsg : Eigen.Affine3d → geometry_msgs.Pose)
    (s : NavCollisionChecker) (msg : geometry_msgs.Twist) :
  virtual_link_ok s →
  let s' := twistCallback rotation_quaternion poseEigenToMsg msg s in
  ∃ new,
    trace s' = trace s ++ new
    ∧ (warnings new = [(3%R, pose_warning)] ∨ warnings new = [])
    ∧ (warnings new ≠ [] ↔ p_pass_through_ s = false ∧ robot_pose_ptr_ s = None).
Proof.
  intros Hok s'.
  destruct (p_pass_through_ s) eqn:Hpass.
  { exists [safe_twist_pub msg]. subst s'. unfold twistCallback. rewrite Hpass.
    cbn. split; [reflexivity |]. split; [now right |].
    split; [intros H; now contradiction H | intros [H _]; discriminate H]. }
  destruct (robot_pose_ptr_ s) as [robot_pose |] eqn:Hpose.
  2:{ exists [ROS_WARN_THROTTLE 3 pose_warning; safe_twist_pub msg].
      subst s'. unfold twistCallback. rewrite Hpass, Hpose. cbn [trace emit].
      rewrite <- app_assoc. cbn. split; [reflexivity |]. split; [now left |].
      split; [intros _; split; reflexivity | intros _; discriminate]. }
  destruct (twistCallback_cases rotation_quaternion poseEigenToMsg msg s robot_pose
              Hok Hpass Hpose)
    as [(_ & Htrace & _) | (k & _ & _ & _ & Htrace & _)];
    fold s' in Htrace; (eexists; split; [exact Htrace |]).
  - destruct (clear_trace_views rotation_quaternion s
                (fun j => rollout_pose s msg robot_pose (S j)) (loop_bound s)
                (marker_array_ s') msg) as (_ & _ & _ & -> & _).
    split; [now right |].
    split; [intros H; now contradiction H | intros [_ H]; discriminate H].
  - destruct (blocked_trace_views rotation_quaternion s
                (fun j => rollout_pose s msg robot_pose (S j)) (S k)
                (rollout_pose s msg robot_pose (S k))
                (rotation_quaternion (rollout_pose s msg robot_pose (S k)))
                (marker_array_ s') (stop msg)) as (_ & _ & _ & -> & _).
    split; [now right |].
    split; [intros H; now contradiction H | intros [_ H]; discriminate H].
Qed.

(** A located robot in front of the wall is never warned about. *)
Lemma warning_only_without_pose_witness :
  let s := located_node (mkConfig 0.5 10 false) (wall_scene 1.25) in
  virtual_link_ok s
  ∧ ∃ new,
      trace (twistCallback upright_quaternion upright_pose_msg forward_cmd s)
      = trace s ++ new
      ∧ warnings new = [].
Proof.
  intros s.
  assert (Hok : virtual_link_ok s) by (split; reflexivity).
  split; [exact Hok |].
  destruct (warning_only_without_pose upright_quaternion upright_pose_msg s
              forward_cmd Hok) as (new & Htrace & Hshape & Hiff).
  exists new. split; [exact Htrace |].
  destruct Hshape as [Hwarn | Hnone]; [| exact Hnone].
  assert (Hne : warnings new ≠ []) by (rewrite Hwarn; discriminate).
  apply Hiff in Hne as [_ Habsurd]. discriminate Habsurd.
Defined.

(** X12.  The collision check keeps nothing of the pose it was asked
    about before: asked about a pose after any other pose, it gives the
    verdict and leaves the robot state and the virtual-link message it
    would have given and left when asked about that pose first. *)
Theorem collision_check_forgets_previous_pose
    (rotation_quaternion : Eigen.Affine3d → Eigen.Quaterniond)
    (pose previous : Eigen.Affine3d) (s : NavCollisionChecker) :
  virtual_link_ok s →
  let s1 := (isInCollision rotation_quaternion previous s).2 in
  (isInCollision rotation_quaternion pose s1).1
  = (isInCollision rotation_quaternion pose s).1
  ∧ robot_state_ (isInCollision rotation_quaternion pose s1).2
    = robot_state_ (isInCollision rotation_quaternion pose s).2
  ∧ virtual_link_joint_states_ (isInCollision rotation_quaternion pose s1).2
    = virtual_link_joint_states_ (isInCollision rotation_quaternion pose s).2.
Proof.
  intros Hok s1.
  assert (Hfirst : virtual_link_ok s1 ∧ same_setup s s1).
  { subst s1. rewrite (isInCollision_eq _ _ _ Hok).
    destruct (moveit.collision _); cbn [snd].
    - split; [apply collided_node_ok | apply collided_node_same_setup].
    - split; [apply checked_node_ok | apply checked_node_same_setup]. }
  destruct Hfirst as [Hok1 Hsame].
  assert (Hafter : ∀ n, virtual_link_ok n →
            robot_state_ (isInCollision rotation_quaternion pose n).2
            = candidate_state pose (rotation_quaternion pose) (robot_state_ n)
            ∧ virtual_link_joint_states_ (isInCollision rotation_quaternion pose n).2
              = sensor_msgs.mkJointState virtual_link_names
                  (virtual_link_values pose (rotation_quaternion pose))).
  { intros n Hn. rewrite (isInCollision_eq _ _ _ Hn).
    destruct (moveit.collision _); cbn [snd]; [| split; reflexivity].
    unfold collided_node. destruct (decide _); split; reflexivity. }
  split; [apply (verdict_same_setup _ _ _ _ Hok Hok1 Hsame) |].
  destruct (Hafter s Hok) as [-> ->]. destruct (Hafter s1 Hok1) as [-> ->].
  split; [apply Hsame | reflexivity].
Qed.

(** Behind the wall, then in front of it: the verdict in front of the
    wall is "clear", as if nothing had been asked before. *)
Lemma collision_check_forgets_previous_pose_witness :
  let s := located_node (mkConfig 0.5 10 false) (wall_scene 1.25) in
  let behind := rollout_pose s forward_cmd origin_pose 3 in
  let front := rollout_pose s forward_cmd origin_pose 1 in
  virtual_link_ok s
  ∧ (isInCollision upright_quaternion front
       (isInCollision upright_quaternion behind s).2).1 = false.
Proof.
  intros s behind front.
  assert (Hok : virtual_link_ok s) by (split; reflexivity).
  split; [exact Hok |].
  rewrite (proj1 (collision_check_forgets_previous_pose upright_quaternion front behind
                    s Hok)).
  apply (wall_verdict upright_quaternion 1.25 _ s Hok eq_refl).
  subst front. rewrite forward_rollout_pose. cbn [Eigen.x Eigen.translation INR].
  change (p_roll_out_step_time_ s) with 0.5%R. lra.
Defined.

(** X13.  A rollout starts from the pose received last: after two pose
    messages, the first pose a command puts to the scene is the later
    pose advanced by one step, whatever the earlier pose was. *)
Theorem rollout_starts_from_latest_pose
    (rotation_quaternion : Eigen.Affine3d → Eigen.Quaterniond)
    (poseEigenToMsg : Eigen.Affine3d → geometry_msgs.Pose)
    (s : NavCollisionChecker) (msg : geometry_msgs.Twist)
    (earlier later : geometry_msgs.Pose) :
  virtual_link_ok s →
  p_pass_through_ s = false →
  (0 < loop_bound s)%nat →
  let s' := twistCallback rotation_quaternion poseEigenToMsg msg
              (robotPoseCallback later (robotPoseCallback earlier s)) in
  ∃ rest,
    trace s'
    = trace s
      ++ pose_query rotation_quaternion s
           (Eigen.mul (poseMsgToEigen later)
                      (integrateTwist msg (p_roll_out_step_time_ s)))
         :: rest.
Proof.
  intros Hok Hpass Hbound s'.
  exact (twistCallback_first_query rotation_quaternion poseEigenToMsg msg
           (robotPoseCallback later (robotPoseCallback earlier s)) later
           Hok Hpass eq_refl Hbound).
Qed.

(** Two pose messages, then the forward command. *)
Lemma rollout_starts_from_latest_pose_witness :
  let s := fresh_node (mkConfig 0.5 4 false) free_scene in
  let later :=
    geometry_msgs.mkPose (geometry_msgs.mkPoint 2 0 0) (geometry_msgs.mkQuaternion 0 0 0 1) in
  (0 < loop_bound s)%nat
  ∧ ∃ rest,
      trace (twistCallback upright_quaternion upright_pose_msg forward_cmd
               (robotPoseCallback later (robotPoseCallback origin_pose s)))
      = trace s
        ++ pose_query upright_quaternion s
             (Eigen.mul (poseMsgToEigen later)
                        (integrateTwist forward_cmd (p_roll_out_step_time_ s)))
           :: rest.
Proof.
  intros s later.
  assert (Hok : virtual_link_ok s) by (split; reflexivity).
  assert (Hbound : (0 < loop_bound s)%nat).
  { change (loop_bound s) with 4%nat. lia. }
  split; [exact Hbound |].
  exact (rollout_starts_from_latest_pose upright_quaternion upright_pose_msg s
           forward_cmd origin_pose later Hok eq_refl Hbound).
Defined.

(** X14.  The joint values of a joint-state message reach the planning
    scene with the next collision check: a variable the message names
    has the value of the message in the robot state that is queried,
    unless it is one of the seven virtual-link variables, which always
    get the values of the pose that is checked; a variable that neither
    names keeps its value.  A message whose name and position arrays
    differ in length changes nothing. *)
Theorem joint_states_reach_the_scene
    (rotation_quaternion : Eigen.Affine3d → Eigen.Quaterniond)
    (msg : sensor_msgs.JointState) (pose : Eigen.Affine3d) (s : NavCollisionChecker) :
  virtual_link_ok s →
  let checked := (isInCollision rotation_quaternion pose (jointStatesCallback msg s)).2 in
  (length (sensor_msgs.name msg) ≠ length (sensor_msgs.position msg) →
   jointStatesCallback msg s = s)
  ∧ (length (sensor_msgs.name msg) = length (sensor_msgs.position msg) →
     NoDup (sensor_msgs.name msg) →
     ∀ i k v,
       sensor_msgs.name msg !! i = Some k →
       sensor_msgs.position msg !! i = Some v →
       k ∉ virtual_link_names →
       robot_state_ checked !! k = Some v)
  ∧ (∀ i k v,
       virtual_link_names !! i = Some k →
       virtual_link_values pose (rotation_quaternion pose) !! i = Some v →
       robot_state_ checked !! k = Some v)
  ∧ (∀ k, k ∉ sensor_msgs.name msg → k ∉ virtual_link_names →
       robot_state_ checked !! k = robot_state_ s !! k).
Proof.
  intros Hok checked.
  assert (Hchecked :
    robot_state_ checked
    = candidate_state pose (rotation_quaternion pose)
        (moveit.jointStateToRobotState msg (robot_state_ s))).
  { subst checked.
    assert (Hok' : virtual_link_ok (jointStatesCallback msg s)) by exact Hok.
    rewrite (isInCollision_eq _ _ _ Hok').
    destruct (moveit.collision _); cbn [snd]; [| reflexivity].
    unfold collided_node. now destruct (decide _). }
  split; [| split; [| split]].
  - intros Hlen. unfold jointStatesCallback, moveit.jointStateToRobotState.
    destruct (decide _) as [Heq | _]; [contradiction |]. now destruct s.
  - intros Hlen Hnd i k v Hk Hv Hout. rewrite Hchecked. unfold candidate_state.
    rewrite setVariablePositions_other by exact Hout.
    unfold moveit.jointStateToRobotState.
    destruct (decide _) as [_ | Hne]; [| contradiction].
    now apply (setVariablePositions_nth _ _ _ i).
  - intros i k v Hk Hv. rewrite Hchecked.
    apply (setVariablePositions_nth _ _ _ i); [apply virtual_link_names_NoDup | |];
      assumption.
  - intros k Hmsg Hvl. rewrite Hchecked. unfold candidate_state.
    rewrite setVariablePositions_other by exact Hvl.
    unfold moveit.jointStateToRobotState.
    destruct (decide _); [| reflexivity].
    now apply setVariablePositions_other.
Qed.

(** An arm joint and, by mistake, the forward coordinate of the virtual
    link in one joint-state message: the arm joint reaches the scene,
    the virtual link is where the checked pose is. *)
Lemma joint_states_reach_the_scene_witness :
  let s := located_node (mkConfig 0.5 10 false) free_scene in
  let msg := sensor_msgs.mkJointState
               ["arm_joint_0"; "world_virtual_joint/trans_x"] [0.5%R; 7%R] in
  let pose := poseMsgToEigen origin_pose in
  let checked := (isInCollision upright_quaternion pose (jointStatesCallback msg s)).2 in
  virtual_link_ok s
  ∧ robot_state_ checked !! "arm_joint_0" = Some 0.5%R
  ∧ robot_state_ checked !! "world_virtual_joint/trans_x"
    = Some (Eigen.x (Eigen.translation pose)).
Proof.
  intros s msg pose checked.
  assert (Hok : virtual_link_ok s) by (split; reflexivity).
  destruct (joint_states_reach_the_scene upright_quaternion msg pose s Hok)
    as (_ & Hnamed & Hlink & _).
  fold checked in Hnamed, Hlink.
  split; [exact Hok |]. split.
  - apply (Hnamed eq_refl) with (i := 0%nat); [| reflexivity | reflexivity |].
    + apply (bool_decide_unpack _). vm_compute. reflexivity.
    + unfold virtual_link_names.
      rewrite !not_elem_of_cons. repeat split; try discriminate.
      apply not_elem_of_nil.
  - apply (Hlink 0%nat); reflexivity.
Defined.
